(** * The filesystem-to-topic mirror of [missing-topic-handler.ts]

    A shallow embedding of [mapTopicPath], [CDNHandler] and [main] of
    [src/missing-topic-handler.ts], and the properties of the mirror.

    The program is a set of callbacks registered with three sources of
    events: the chokidar watcher, the topic notification listener and the
    missing-topic handler.  Every callback runs to completion on the single
    JavaScript thread.  An [async] function runs synchronously up to its first
    [await]; what follows the [await] runs later, when the awaited promise
    settles.  The embedding follows this: a callback is a computation in a
    small monad over the mirror's state that records its effects in a trace,
    an [await] stores a continuation under the identifier of the awaited
    call, and the settlement of that call is one more event. *)

From stdpp Require Import gmap strings list.
From Stdlib Require Import ZArith.

Open Scope string_scope.
Open Scope list_scope.

(** ** Values that cross the program's boundary *)

(** What a [catch (err)] of the program can receive.  [readFileSync] throws a
    Node system error that has an [errno] field ([ENOENT] is [-2]);
    [JSON.parse] throws a [SyntaxError], which has none; a rejected SDK call
    carries whatever the SDK rejects with. *)
Inductive Err : Type :=
| SystemError (errno : Z)
| SyntaxError
| SdkError (errno : option Z).

(** [err.errno], [None] for [undefined]. *)
Definition errno_of (err : Err) : option Z :=
  match err with
  | SystemError n => Some n
  | SyntaxError => None
  | SdkError o => o
  end.

(** [err.errno == -2] *)
Definition errno_is_ENOENT (err : Err) : bool :=
  match errno_of err with
  | Some n => (n =? -2)%Z
  | None => false
  end.

(** [session.notifications.TopicNotificationType].  The [switch] of
    [onTopicNotification] has no [default]; [UNKNOWN] stands for any value
    that none of its four [case]s matches. *)
Inductive TopicNotificationType : Type :=
| ADDED
| REMOVED
| SELECTED
| DESELECTED
| UNKNOWN (tag : Z).

Inductive TopicType : Type :=
| JSON_TOPIC.

(** [new diffusion.topics.TopicSpecification(type, properties)] *)
Record TopicSpecification : Type := {
  spec_type : TopicType;
  spec_properties : list (string * string)
}.

(** The options object of [topicUpdate.set]: [{ specification: ... }]. *)
Record TopicUpdateOptions : Type := {
  specification : TopicSpecification
}.

(** [CDNHandler.defaultTopicSpec]: a JSON topic with an automatic removal
    policy. *)
Definition defaultTopicSpec : TopicUpdateOptions :=
  {| specification :=
       {| spec_type := JSON_TOPIC;
          spec_properties :=
            [("REMOVAL", "when subscriptions < 1 for 1m")] |} |}.

(** [diffusion.datatypes.json()] *)
Inductive DataType : Type :=
| datatypes_json.

(** [diffusion.MissingTopicNotification], the fields the program reads. *)
Record MissingTopicNotification : Type := {
  mt_path : string;
  mt_selector : string;
  mt_sessionID : string
}.

(** The filesystem as [readFileSync(path).toString()] sees it at one moment:
    the text of the file, or the [errno] of the system error it throws. *)
Definition FileSystem : Type := string → Z + string.

Inductive Level : Type := INFO | WARN | ERROR.

Inductive LogArg : Type :=
| Text (s : string)
| Thrown (e : Err).

Inductive Registration : Type :=
| NotificationsAddListener
| RegistrationSelect (selector : string)
| ChokidarWatch (root : string)
| AddMissingTopicHandler (root : string).

Inductive Settlement : Type :=
| Resolved
| Rejected (e : Err).

(** The continuation of an [async] method of [CDNHandler] suspended at its
    [await]. *)
Inductive Cont : Type :=
| setTopic_resume (path : string)
| unsetTopic_resume (path : string).

(** ** State

    [topics] is the one [Set<string>] that [mapTopicPath] creates, mutates
    from its listener and returns, and that [CDNHandler] keeps as
    [this.topics]: both sides share the object, so it is one field.
    [awaiting] holds the suspended [async] bodies by the identifier of the
    call they wait for, and [next_call] is the next fresh identifier. *)
Record Mirror : Type := {
  topics : gset string;
  awaiting : gmap nat Cont;
  next_call : nat
}.

Definition initial : Mirror :=
  {| topics := ∅; awaiting := ∅; next_call := 0 |}.

(** How a callback ends: it returns or it throws. *)
Inductive Completion (A : Type) : Type :=
| Normal (a : A)
| Throw (e : Err).
Arguments Normal {A} a.
Arguments Throw {A} e.

(** ** The session property listener of [session-property-listener.ts]

    [MyListener] keeps the role it looks for and the selector it subscribes
    sessions to.  Its callbacks have no state of their own; each is a
    function to the way it ends and the trace of its effects. *)

Record MyListener : Type := {
  role : string;
  selector : string
}.

Inductive SessionLogArg : Type :=
| WithProperties (properties : gmap string string)
| WithError (error : Err).

Inductive ListenerEffect : Type :=
| logger_call (logger : string) (level : Level) (msg : string)
    (arg : option SessionLogArg)
| clients_subscribe (sessionID : string) (sel : string)
| setSessionPropertiesListener (requested : list string) (l : MyListener).

(** Whether [properties[key]] is truthy: [undefined] and the empty string
    are not. *)
Definition truthy (v : option string) : bool :=
  match v with
  | None => false
  | Some EmptyString => false
  | Some (String _ _) => true
  end.

Definition session_logger : string := "session-property-listener".

(** The subscriptions that a trace starts. *)
Fixpoint subscriptions_of (tr : list ListenerEffect) : list (string * string) :=
  match tr with
  | [] => []
  | clients_subscribe sessionID sel :: rest =>
      (sessionID, sel) :: subscriptions_of rest
  | _ :: rest => subscriptions_of rest
  end.

(** The callbacks that the SDK, or the promise of a subscription, runs. *)
Inductive SessionListenerEvent : Type :=
| SessionsActive
| SessionOpen (sessionID : string) (properties : gmap string string)
| SessionEvent (sessionID : string) (type : Z)
    (properties previous : gmap string string)
| SessionClose (sessionID : string) (properties : gmap string string)
    (reason : string)
| SessionsClose
| SessionsError (error : Err)
| SubscriptionResolved (principal sessionID : string).

(** The properties that [main] asks the server to report. *)
Definition requested_properties : list string := ["$Principal"; "$Roles"].

(** The session has, with a principal, the role of the listener. *)
Definition has_role (roles_of : string → Err + list string) (this : MyListener)
    (properties : gmap string string) : Prop :=
  ∃ rolesStr principal roles,
    properties !! "$Roles" = Some rolesStr ∧ rolesStr ≠ ""
    ∧ properties !! "$Principal" = Some principal ∧ principal ≠ ""
    ∧ roles_of rolesStr = inr roles ∧ role this ∈ roles.

Section SessionPropertyListener.

(** [diffusion.stringToRoles] is the SDK's: a parameter, which may throw. *)
Variable stringToRoles : string → Err + list string.

Definition onActive : Completion unit * list ListenerEffect :=
  (Normal tt, [logger_call session_logger INFO "SP Listener is active" None]).

(** [onSessionOpen] up to the call of [subscribe]. *)
Definition onSessionOpen (this : MyListener) (sessionID : string)
    (properties : gmap string string)
  : Completion unit * list ListenerEffect :=
  let opened :=
    logger_call session_logger INFO ("Session openned " +:+ sessionID)
      (Some (WithProperties properties)) in
  let rolesStr := properties !! "$Roles" in
  let principal := properties !! "$Principal" in
  if negb (truthy rolesStr && truthy principal) then (Normal tt, [opened])
  else
    match stringToRoles (default "" rolesStr) with
    | inl e => (Throw e, [opened])
    | inr roles =>
        if bool_decide (role this ∈ roles)
        then (Normal tt, [opened; clients_subscribe sessionID (selector this)])
        else (Normal tt, [opened])
    end.

(** The callback that [onSessionOpen] gives to [then]. *)
Definition onSessionOpen_then (this : MyListener)
    (principal sessionID : string)
  : Completion unit * list ListenerEffect :=
  (Normal tt,
   [logger_call session_logger INFO
      ("Subscribed " +:+ principal +:+ " at " +:+ sessionID +:+ " to " +:+
       selector this) None]).

Definition onSessionEvent (sessionID : string) (type : Z)
    (properties previous : gmap string string)
  : Completion unit * list ListenerEffect :=
  (Normal tt,
   [logger_call session_logger INFO
      ("Session changed properties " +:+ sessionID)
      (Some (WithProperties properties))]).

Definition onSessionClose (sessionID : string)
    (properties : gmap string string) (reason : string)
  : Completion unit * list ListenerEffect :=
  (Normal tt,
   [logger_call session_logger INFO
      ("Session openned " +:+ sessionID +:+ ": " +:+ reason)
      (Some (WithProperties properties))]).

Definition MyListener_onClose : Completion unit * list ListenerEffect :=
  (Normal tt, [logger_call session_logger INFO "SP Listener is closed" None]).

Definition MyListener_onError (error : Err)
  : Completion unit * list ListenerEffect :=
  (Normal tt,
   [logger_call session_logger ERROR "SP Listener error"
      (Some (WithError error))]).

Definition listener_dispatch (this : MyListener) (ev : SessionListenerEvent)
  : Completion unit * list ListenerEffect :=
  match ev with
  | SessionsActive => onActive
  | SessionOpen sessionID properties => onSessionOpen this sessionID properties
  | SessionEvent sessionID type properties previous =>
      onSessionEvent sessionID type properties previous
  | SessionClose sessionID properties reason =>
      onSessionClose sessionID properties reason
  | SessionsClose => MyListener_onClose
  | SessionsError error => MyListener_onError error
  | SubscriptionResolved principal sessionID =>
      onSessionOpen_then this principal sessionID
  end.

(** The trace of a sequence of callbacks; one that throws does not stop the
    ones after it. *)
Fixpoint listener_run (this : MyListener) (evs : list SessionListenerEvent)
  : list ListenerEffect :=
  match evs with
  | [] => []
  | ev :: rest => (listener_dispatch this ev).2 ++ listener_run this rest
  end.

(** [main] of the listener, with the outcomes of its two awaits; what it
    throws goes to the [catch] under it. *)
Definition listener_main (connect : Err + string) (host : string)
    (registered : Settlement) : Completion unit * list ListenerEffect :=
  match connect with
  | inl e => (Throw e, [])
  | inr sessionId =>
      let tr :=
        [logger_call "main" INFO
           ("Connected session " +:+ sessionId +:+ " to " +:+ host) None;
         setSessionPropertiesListener requested_properties
           {| role := "TRADER"; selector := "cdn/trader-news.json" |}] in
      match registered with
      | Resolved => (Normal tt, tr)
      | Rejected e => (Throw e, tr)
      end
  end.

End SessionPropertyListener.

(** A listener and sessions to run it on: the listener that [main] makes,
    a trader, and a session whose principal is empty.  The parser stands
    for the SDK's on the role texts of these sessions. *)

Definition quoted (text : string) : string :=
  String (Ascii.ascii_of_nat 34)
    (text +:+ String (Ascii.ascii_of_nat 34) EmptyString).

Definition trader_listener : MyListener :=
  {| role := "TRADER"; selector := "cdn/trader-news.json" |}.

Definition scenario_stringToRoles (text : string) : Err + list string :=
  if String.eqb text (quoted "TRADER") then inr ["TRADER"]
  else if String.eqb text (quoted "OPERATOR") then inr ["OPERATOR"]
  else inl SyntaxError.

Definition trader_properties : gmap string string :=
  {[ "$Roles" := quoted "TRADER"; "$Principal" := "alice" ]}.

Definition anonymous_properties : gmap string string :=
  {[ "$Roles" := quoted "TRADER"; "$Principal" := "" ]}.

(** ** The subscriber

    The third program: it takes a path on its command line, adds a stream
    on it and selects it.  [chalk]'s styles are the runtime's: a parameter
    from a style and a text to the styled text. *)

Inductive ChalkStyle : Type := yellowBright | yellow | redBright.

Inductive SubscriberEffect : Type :=
| usage_error (msg : string)
| error_thrown (e : Err)
| console_log (args : list string)
| diffusion_connect
| addStream (path : string) (dataType : DataType)
| session_select (path : string).

Section Subscriber.

Variable chalk : ChalkStyle → string → string.

(** [main] of the subscriber, with the outcomes of its two awaits. *)
Definition subscriber_main (args : list string) (connect : Err + string)
    (host : string) (selected : Settlement)
  : Completion unit * list SubscriberEffect :=
  match args with
  | [] =>
      (Normal tt, [usage_error "wrong # args, try <topic-subscription-path>"])
  | path :: _ =>
      match connect with
      | inl e => (Throw e, [diffusion_connect])
      | inr sessionId =>
          let tr :=
            [diffusion_connect;
             console_log [chalk yellowBright "Connected session";
                          sessionId +:+ " to " +:+ host];
             addStream path datatypes_json;
             session_select path] in
          match selected with
          | Rejected e => (Throw e, tr)
          | Resolved =>
              (Normal tt,
               tr ++ [console_log [chalk yellowBright "Selected: " +:+ path]])
          end
      end
  end.

(** [main(process.argv.slice(2)).then(...).catch(err => console.error(err))] *)
Definition subscriber_program (args : list string) (connect : Err + string)
    (host : string) (selected : Settlement) : list SubscriberEffect :=
  match subscriber_main args connect host selected with
  | (Normal _, tr) => tr
  | (Throw e, tr) => tr ++ [error_thrown e]
  end.

End Subscriber.

Section Mirror.

(** [JSON.parse] is the runtime's, not the repository's: the type of parsed
    values and the parser are parameters.  [None] is a thrown
    [SyntaxError]. *)
Variable JSON : Type.
Variable JSON_parse : string → option JSON.

(** Calls on the session that return a promise. *)
Inductive Call : Type :=
| topicUpdate_set (path : string) (dataType : DataType) (value : JSON)
    (options : TopicUpdateOptions)
| topics_remove (path : string).

(** What a callback does to the world, in order. *)
Inductive Effect : Type :=
| Log (logger : string) (level : Level) (args : list LogArg)
| ConsoleLog (msg : string)
| ConsoleError (e : Err)
| FsRead (path : string)
| ServerCall (id : nat) (c : Call)
| Proceed (n : MissingTopicNotification)
| Register (r : Registration).

(** ** The monad of callbacks *)

Definition M (A : Type) : Type := Mirror → Completion A * Mirror * list Effect.

Definition ret {A} (a : A) : M A := λ s, (Normal a, s, []).

Definition bind {A B} (m : M A) (k : A → M B) : M B :=
  λ s,
    match m s with
    | (Normal a, s1, t1) =>
        match k a s1 with
        | (r, s2, t2) => (r, s2, t1 ++ t2)
        end
    | (Throw e, s1, t1) => (Throw e, s1, t1)
    end.

Definition throw {A} (e : Err) : M A := λ s, (Throw e, s, []).

(** [try { body } catch (err) { handler(err) }]: state and trace of the body
    up to the throw are kept. *)
Definition try_catch {A} (body : M A) (handler : Err → M A) : M A :=
  λ s,
    match body s with
    | (Normal a, s1, t1) => (Normal a, s1, t1)
    | (Throw e, s1, t1) =>
        match handler e s1 with
        | (r, s2, t2) => (r, s2, t1 ++ t2)
        end
    end.

#[local] Instance M_ret : MRet M := @ret.
#[local] Instance M_bind : MBind M := λ A B k m, bind m k.

Notation "'let*' x := m 'in' k" := (bind m (λ x, k))
  (at level 10, x name, m at level 100, k at level 200).

Definition emit (e : Effect) : M unit := λ s, (Normal tt, s, [e]).

Definition topics_has (path : string) : M bool :=
  λ s, (Normal (bool_decide (path ∈ topics s)), s, []).

Definition topics_add (path : string) : M unit :=
  λ s, (Normal tt,
        {| topics := {[path]} ∪ topics s;
           awaiting := awaiting s;
           next_call := next_call s |}, []).

Definition topics_delete (path : string) : M unit :=
  λ s, (Normal tt,
        {| topics := topics s ∖ {[path]};
           awaiting := awaiting s;
           next_call := next_call s |}, []).

(** Start a call on the session: it goes out under a fresh identifier. *)
Definition session_call (c : Call) : M nat :=
  λ s, (Normal (next_call s),
        {| topics := topics s;
           awaiting := awaiting s;
           next_call := S (next_call s) |},
        [ServerCall (next_call s) c]).

(** [await] of the promise of call [id]: the rest of the body is parked. *)
Definition await (id : nat) (k : Cont) : M unit :=
  λ s, (Normal tt,
        {| topics := topics s;
           awaiting := <[id := k]> (awaiting s);
           next_call := next_call s |}, []).

(** Take the body parked under [id], if there is one. *)
Definition resume (id : nat) : M (option Cont) :=
  λ s, (Normal (awaiting s !! id),
        {| topics := topics s;
           awaiting := delete id (awaiting s);
           next_call := next_call s |}, []).

(** [readFileSync(path).toString()] *)
Definition readFileSync (fs : FileSystem) (path : string) : M string :=
  emit (FsRead path) ;;
  match fs path with
  | inr text => ret text
  | inl errno => throw (SystemError errno)
  end.

(** [JSON.parse(text)] *)
Definition JSON_parse_or_throw (text : string) : M JSON :=
  match JSON_parse text with
  | Some v => ret v
  | None => throw SyntaxError
  end.

(** ** [mapTopicPath]: the notification listener *)

Definition listener_logger : string := "topic-notification-listener".

(** [onTopicNotification] *)
Definition onTopicNotification (path : string) (type : TopicNotificationType)
  : M unit :=
  match type with
  | ADDED =>
      emit (Log listener_logger INFO
              [Text ("Topic " +:+ path +:+ " has been added")]) ;;
      topics_add path
  | REMOVED =>
      emit (Log listener_logger WARN
              [Text ("Topic " +:+ path +:+ " has been removed")]) ;;
      topics_delete path
  | SELECTED =>
      emit (Log listener_logger INFO
              [Text ("Topic " +:+ path +:+
                     " existed at the time of the selector registration.")]) ;;
      topics_add path
  | DESELECTED =>
      emit (Log listener_logger WARN
              [Text ("Topic " +:+ path +:+ " has been deselected")]) ;;
      topics_delete path
  | UNKNOWN _ => ret tt
  end.

(** [onDescendantNotification] and [onClose] do nothing. *)
Definition onDescendantNotification (path : string)
    (type : TopicNotificationType) : M unit := ret tt.

Definition listener_onClose : M unit := ret tt.

Definition listener_onError (error : Err) : M unit :=
  emit (Log listener_logger ERROR [Text "An error has occurred"; Thrown error]).

(** The selector of [mapTopicPath]: [`?${path}//`]. *)
Definition selector_of (path : string) : string := "?" +:+ path +:+ "//".

(** [mapTopicPath], with its two [await]s taken as resolved: it registers the
    listener, selects the branch and leaves [topics] as the set it filled so
    far. *)
Definition mapTopicPath (path : string) : M unit :=
  emit (Register NotificationsAddListener) ;;
  emit (Register (RegistrationSelect (selector_of path))) ;;
  emit (Log listener_logger INFO
          [Text ("Watching for missing topics that match " +:+ selector_of path)]).

(** ** [CDNHandler] *)

Definition cdn_logger : string := "CDNHandler".

(** The [catch] block of [setTopic]. *)
Definition setTopic_catch (path : string) (err : Err) : M unit :=
  if errno_is_ENOENT err then
    emit (Log cdn_logger WARN
            [Text ("Cannot satisfy missing topic " +:+ path +:+
                   ", no existing file")])
  else
    emit (Log cdn_logger ERROR [Thrown err]).

(** [setTopic] up to its [await]. *)
Definition setTopic (fs : FileSystem) (path : string) : M unit :=
  try_catch
    (let* text := readFileSync fs path in
     let* content := JSON_parse_or_throw text in
     let* id :=
       session_call
         (topicUpdate_set path datatypes_json content defaultTopicSpec) in
     await id (setTopic_resume path))
    (setTopic_catch path).

(** [setTopic] from its [await] on: inside the same [try]. *)
Definition setTopic_after (path : string) (r : Settlement) : M unit :=
  try_catch
    (match r with
     | Resolved => topics_add path
     | Rejected e => throw e
     end)
    (setTopic_catch path).

(** [unsetTopic] up to its [await]. *)
Definition unsetTopic (path : string) : M unit :=
  let* id := session_call (topics_remove path) in
  await id (unsetTopic_resume path).

(** [unsetTopic] from its [await] on.  There is no [try]: a rejection rejects
    the promise of [unsetTopic], which nothing handles. *)
Definition unsetTopic_after (path : string) (r : Settlement) : M unit :=
  match r with
  | Resolved => topics_delete path
  | Rejected e => throw e
  end.

(** [handleMissingTopic].  [setTopic] is [async], so it hands back a promise
    and the [catch] here sees nothing. *)
Definition handleMissingTopic (fs : FileSystem) (path : string) : M unit :=
  try_catch (setTopic fs path) (λ err, emit (ConsoleError err)).

(** The watcher's ['unlink'] callback. *)
Definition on_unlink (path : string) : M unit :=
  emit (ConsoleLog ("File " +:+ path +:+ " unlinked")) ;;
  let* tracked := topics_has path in
  if tracked then
    unsetTopic path ;;
    emit (ConsoleLog ("Removed topic " +:+ path))
  else ret tt.

(** The watcher's ['change'] callback. *)
Definition on_change (fs : FileSystem) (path : string) : M unit :=
  let* tracked := topics_has path in
  if tracked then
    emit (ConsoleLog ("Updated topic " +:+ path)) ;;
    setTopic fs path
  else ret tt.

(** The constructor of [CDNHandler]. *)
Definition CDNHandler_new (pathPrefix : string) : M unit :=
  emit (Register (ChokidarWatch pathPrefix)).

(** [CDNHandler.build] *)
Definition CDNHandler_build (pathPrefix : string) : M unit :=
  mapTopicPath pathPrefix ;;
  CDNHandler_new pathPrefix.

(** ** [main] *)

Definition root_logger : string := "missing-topic-handler".

(** [onRegister], [onClose] and [onError] of the handler that [main]
    registers. *)
Definition handler_onRegister (path : string) : M unit :=
  emit (Log root_logger INFO
          [Text ("Registered MT notification on path " +:+ path)]).

Definition handler_onClose (path : string) : M unit :=
  emit (Log root_logger WARN [Text ("MT handler closed for path " +:+ path)]).

Definition handler_onError (path : string) (error : Err) : M unit :=
  emit (Log root_logger ERROR
          [Text ("MT handler for path " +:+ path +:+ " error'd: ");
           Thrown error]).

(** [onMissingTopic] of the handler that [main] registers. *)
Definition onMissingTopic (fs : FileSystem) (n : MissingTopicNotification)
  : M unit :=
  emit (Log root_logger INFO
          [Text ("Missing topic notification: path=" +:+ mt_path n +:+
                 ", selector=" +:+ mt_selector n +:+
                 ", session=" +:+ mt_sessionID n)]) ;;
  handleMissingTopic fs (mt_path n) ;;
  emit (Proceed n).

(** The root of the mirror in [main]. *)
Definition root : string := "cdn".

(** [main] after [diffusion.connect] resolved with a session of identifier
    [sessionId] on [host]. *)
Definition main (sessionId host : string) : M unit :=
  emit (Log root_logger INFO
          [Text ("Connected session " +:+ sessionId +:+ " to " +:+ host)]) ;;
  CDNHandler_build root ;;
  emit (Register (AddMissingTopicHandler root)).

(** ** The event loop *)

Inductive Event : Type :=
| FsChange (path : string)
| FsUnlink (path : string)
| TopicNotified (path : string) (type : TopicNotificationType)
| DescendantNotified (path : string) (type : TopicNotificationType)
| ListenerClosed
| ListenerFailed (error : Err)
| MissingTopic (n : MissingTopicNotification)
| HandlerRegistered (path : string)
| HandlerClosed (path : string)
| HandlerFailed (path : string) (error : Err)
| Settled (id : nat) (r : Settlement).

(** The settlement of call [id] resumes the body that awaits it. *)
Definition on_settled (id : nat) (r : Settlement) : M unit :=
  let* k := resume id in
  match k with
  | Some (setTopic_resume path) => setTopic_after path r
  | Some (unsetTopic_resume path) => unsetTopic_after path r
  | None => ret tt
  end.

(** One turn of the event loop, with the filesystem as it is during it. *)
Definition dispatch (fs : FileSystem) (ev : Event) : M unit :=
  match ev with
  | FsChange path => on_change fs path
  | FsUnlink path => on_unlink path
  | TopicNotified path type => onTopicNotification path type
  | DescendantNotified path type => onDescendantNotification path type
  | ListenerClosed => listener_onClose
  | ListenerFailed error => listener_onError error
  | MissingTopic n => onMissingTopic fs n
  | HandlerRegistered path => handler_onRegister path
  | HandlerClosed path => handler_onClose path
  | HandlerFailed path error => handler_onError path error
  | Settled id r => on_settled id r
  end.

Definition state_of {A} (x : Completion A * Mirror * list Effect) : Mirror :=
  x.1.2.
Definition trace_of {A} (x : Completion A * Mirror * list Effect)
  : list Effect := x.2.
Definition completion_of {A} (x : Completion A * Mirror * list Effect)
  : Completion A := x.1.1.

(** A sequence of turns.  A callback that throws does not stop the loop in
    the model: the state it left is the state of the next turn.  The only
    turn that throws is the resumption of [unsetTopic] with a rejected
    removal; the runtime may end the process on that unhandled rejection, so
    the model has every run of the process and some that go on where the
    process would have stopped. *)
Fixpoint run (evs : list (FileSystem * Event)) (s : Mirror)
  : Mirror * list Effect :=
  match evs with
  | [] => (s, [])
  | (fs, ev) :: rest =>
      let r := dispatch fs ev s in
      let r' := run rest (state_of r) in
      (r'.1, trace_of r ++ r'.2)
  end.

(** ** Observations on traces and states *)

(** The calls on the session that a trace starts, with their identifiers. *)
Fixpoint calls_of (tr : list Effect) : list (nat * Call) :=
  match tr with
  | [] => []
  | ServerCall id c :: rest => (id, c) :: calls_of rest
  | _ :: rest => calls_of rest
  end.

(** The registrations that a trace makes. *)
Fixpoint registrations_of (tr : list Effect) : list Registration :=
  match tr with
  | [] => []
  | Register r :: rest => r :: registrations_of rest
  | _ :: rest => registrations_of rest
  end.

(** The path of the file or topic that an effect reads, writes or
    removes. *)
Definition effect_path (e : Effect) : option string :=
  match e with
  | FsRead path => Some path
  | ServerCall _ (topicUpdate_set path _ _ _) => Some path
  | ServerCall _ (topics_remove path) => Some path
  | _ => None
  end.

(** The path that an event of one of the three sources carries. *)
Definition event_path (ev : Event) : option string :=
  match ev with
  | FsChange path => Some path
  | FsUnlink path => Some path
  | TopicNotified path _ => Some path
  | DescendantNotified path _ => Some path
  | MissingTopic n => Some (mt_path n)
  | ListenerClosed | ListenerFailed _ | Settled _ _ => None
  | HandlerRegistered _ | HandlerClosed _ | HandlerFailed _ _ => None
  end.

Definition cont_path (k : Cont) : string :=
  match k with
  | setTopic_resume path => path
  | unsetTopic_resume path => path
  end.

(** [path] is the branch [prefix] or below it in the tree. *)
Definition under (prefix path : string) : bool :=
  String.eqb path prefix || String.prefix (prefix +:+ "/") path.

(** Identifiers of parked bodies are identifiers already handed out. *)
Definition wf (s : Mirror) : Prop :=
  ∀ id, is_Some (awaiting s !! id) → id < next_call s.

(** Settle, as resolved, every call that a trace started. *)
Fixpoint resolve_calls (fs : FileSystem) (cs : list (nat * Call))
    (s : Mirror) : Mirror :=
  match cs with
  | [] => s
  | (id, _) :: rest =>
      resolve_calls fs rest (state_of (dispatch fs (Settled id Resolved) s))
  end.

(** No event of the list settles call [id]. *)
Definition unsettled (id : nat) (evs : list (FileSystem * Event)) : Prop :=
  Forall (λ x, ∀ r, x.2 ≠ Settled id r) evs.

(** All effects of a trace that have a path are at [path]. *)
Definition at_path (path : string) (tr : list Effect) : Prop :=
  Forall (λ e, ∀ q, effect_path e = Some q → q = path) tr.

(** The tracked set and the parked bodies hold paths of the branch only. *)
Definition scoped (prefix : string) (s : Mirror) : Prop :=
  (∀ q, q ∈ topics s → under prefix q = true)
  ∧ (∀ id k, awaiting s !! id = Some k → under prefix (cont_path k) = true).

(** The event is one that a source registered on [prefix] delivers. *)
Definition in_scope (prefix : string) (x : FileSystem * Event) : Prop :=
  ∀ q, event_path x.2 = Some q → under prefix q = true.

(** *** [main] with the outcomes of its awaits

    [connect] is what [diffusion.connect] settles with (the session's
    identifier, or the error), [addListener] and [selected] are the outcomes
    of the two awaits of [mapTopicPath]. *)

Definition mapTopicPath_awaiting (path : string)
    (addListener selected : Settlement) : M unit :=
  emit (Register NotificationsAddListener) ;;
  match addListener with
  | Rejected e => throw e
  | Resolved =>
      emit (Register (RegistrationSelect (selector_of path))) ;;
      match selected with
      | Rejected e => throw e
      | Resolved =>
          emit (Log listener_logger INFO
                  [Text ("Watching for missing topics that match " +:+
                         selector_of path)])
      end
  end.

Definition CDNHandler_build_awaiting (pathPrefix : string)
    (addListener selected : Settlement) : M unit :=
  mapTopicPath_awaiting pathPrefix addListener selected ;;
  CDNHandler_new pathPrefix.

Definition main_awaiting (connect : Err + string) (host : string)
    (addListener selected : Settlement) : M unit :=
  match connect with
  | inl e => throw e
  | inr sessionId =>
      emit (Log root_logger INFO
              [Text ("Connected session " +:+ sessionId +:+ " to " +:+
                     host)]) ;;
      CDNHandler_build_awaiting root addListener selected ;;
      emit (Register (AddMissingTopicHandler root))
  end.

(** [main(process.argv.slice(2)).then(...).catch(err => console.error(err))] *)
Definition program (connect : Err + string) (host : string)
    (addListener selected : Settlement) : M unit :=
  try_catch (main_awaiting connect host addListener selected)
    (λ err, emit (ConsoleError err)).

(** The event brings [path] to the mirror's knowledge: the server notifies
    that the topic exists, or a client asks for it. *)
Definition introduces (ev : Event) (path : string) : Prop :=
  match ev with
  | TopicNotified p ADDED | TopicNotified p SELECTED => p = path
  | MissingTopic n => mt_path n = path
  | _ => False
  end.

(** The first await of the startup that is rejected, with its error. *)
Definition startup_failure (connect : Err + string)
    (addListener selected : Settlement) : option Err :=
  match connect, addListener, selected with
  | inl e, _, _ => Some e
  | inr _, Rejected e, _ => Some e
  | inr _, Resolved, Rejected e => Some e
  | inr _, Resolved, Resolved => None
  end.

(** Every path that is tracked, or that a parked [setTopic] will add,
    satisfies [P]. *)
Definition known (P : string → Prop) (s : Mirror) : Prop :=
  (∀ q, q ∈ topics s → P q)
  ∧ (∀ id q, awaiting s !! id = Some (setTopic_resume q) → P q).

(** The event is a notification of the listener or the settlement of a
    call. *)
Definition notification_or_settlement (ev : Event) : bool :=
  match ev with
  | TopicNotified _ _ | Settled _ _ => true
  | _ => false
  end.

(** ** The scenario of the specification

    One concrete filesystem and tracked set, used to run the callbacks:
    [cdn/a.json] holds an empty object and is tracked, [cdn/b.json] holds
    an object with one field and is not, [cdn/bad.json] holds text that is
    not JSON, and nothing else exists. *)

Definition double_quote : string := String (Ascii.ascii_of_nat 34) EmptyString.

Definition path_a : string := "cdn/a.json".
Definition path_b : string := "cdn/b.json".
Definition path_c : string := "cdn/c.json".
Definition path_bad : string := "cdn/bad.json".

Definition text_a : string := "{}".
Definition text_b : string :=
  "{" +:+ double_quote +:+ "x" +:+ double_quote +:+ ":1}".
Definition text_bad : string := "{oops".

Definition scenario_fs : FileSystem :=
  λ path,
    if String.eqb path path_a then inr text_a
    else if String.eqb path path_b then inr text_b
    else if String.eqb path path_bad then inr text_bad
    else inl (-2)%Z.

(** A parser for the scenario: it knows the two documents of the scenario
    and stands for each by its text. *)
Definition scenario_parse (text : string) : option string :=
  if String.eqb text text_a || String.eqb text text_b then Some text
  else None.

Definition tracking_a : Mirror :=
  {| topics := {[path_a]}; awaiting := ∅; next_call := 0 |}.

Definition request_for (path : string) : MissingTopicNotification :=
  {| mt_path := path; mt_selector := path; mt_sessionID := "session-1" |}.

(** ** Proof support *)

Ltac unfold_callbacks :=
  unfold dispatch, on_change, on_unlink, onMissingTopic, handleMissingTopic,
    on_settled, setTopic, setTopic_after, unsetTopic, unsetTopic_after,
    onTopicNotification, onDescendantNotification, listener_onClose,
    listener_onError, handler_onRegister, handler_onClose, handler_onError,
    main, CDNHandler_build, CDNHandler_new, mapTopicPath.

Ltac unfold_monad :=
  unfold readFileSync, JSON_parse_or_throw, setTopic_catch, try_catch,
    session_call, await, resume, topics_has, topics_add, topics_delete,
    emit, throw, mbind, M_bind, bind, ret,
    state_of, trace_of, completion_of.

Ltac step_m := unfold_callbacks; unfold_monad; simpl.

Arguments dispatch : simpl never.

(** *** What [setTopic] does, case by case *)

Lemma setTopic_no_file fs path s errno :
  fs path = inl errno →
  setTopic fs path s =
    (Normal tt, s,
     [FsRead path;
      if (errno =? -2)%Z
      then Log cdn_logger WARN
             [Text ("Cannot satisfy missing topic " +:+ path +:+
                    ", no existing file")]
      else Log cdn_logger ERROR [Thrown (SystemError errno)]]).
Proof.
  intros Hfs. step_m. rewrite Hfs. simpl.
  unfold errno_is_ENOENT. simpl. by destruct (errno =? -2)%Z.
Qed.

Lemma setTopic_bad_json fs path s text :
  fs path = inr text →
  JSON_parse text = None →
  setTopic fs path s =
    (Normal tt, s, [FsRead path; Log cdn_logger ERROR [Thrown SyntaxError]]).
Proof.
  intros Hfs Hparse. step_m. rewrite Hfs. simpl. by rewrite Hparse.
Qed.

Lemma setTopic_writes fs path s text content :
  fs path = inr text →
  JSON_parse text = Some content →
  setTopic fs path s =
    (Normal tt,
     {| topics := topics s;
        awaiting := <[next_call s := setTopic_resume path]> (awaiting s);
        next_call := S (next_call s) |},
     [FsRead path;
      ServerCall (next_call s)
        (topicUpdate_set path datatypes_json content defaultTopicSpec)]).
Proof.
  intros Hfs Hparse. step_m. rewrite Hfs. simpl. by rewrite Hparse.
Qed.

(** [setTopic] always returns normally, whatever the file is. *)
Lemma setTopic_cases (fs : FileSystem) path :
  (∃ errno, fs path = inl errno) ∨
  (∃ text, fs path = inr text ∧ JSON_parse text = None) ∨
  (∃ text content, fs path = inr text ∧ JSON_parse text = Some content).
Proof.
  destruct (fs path) as [errno | text] eqn:Hfs; [left; eauto | right].
  destruct (JSON_parse text) as [content |] eqn:Hparse; [right | left]; eauto.
Qed.

Lemma setTopic_topics fs path s :
  topics (state_of (setTopic fs path s)) = topics s.
Proof.
  destruct (setTopic_cases fs path)
    as [[errno Hfs] | [(text & Hfs & Hp) | (text & content & Hfs & Hp)]].
  - by rewrite (setTopic_no_file _ _ _ _ Hfs).
  - by rewrite (setTopic_bad_json _ _ _ _ Hfs Hp).
  - by rewrite (setTopic_writes _ _ _ _ _ Hfs Hp).
Qed.

Lemma setTopic_normal fs path s :
  completion_of (setTopic fs path s) = Normal tt.
Proof.
  destruct (setTopic_cases fs path)
    as [[errno Hfs] | [(text & Hfs & Hp) | (text & content & Hfs & Hp)]].
  - by rewrite (setTopic_no_file _ _ _ _ Hfs).
  - by rewrite (setTopic_bad_json _ _ _ _ Hfs Hp).
  - by rewrite (setTopic_writes _ _ _ _ _ Hfs Hp).
Qed.

(** The body of [setTopic] resumed with a rejection: the [catch] logs and
    nothing else happens. *)
Lemma setTopic_after_rejected path e s :
  setTopic_after path (Rejected e) s =
    (Normal tt, s, [if errno_is_ENOENT e
                    then Log cdn_logger WARN
                           [Text ("Cannot satisfy missing topic " +:+ path +:+
                                  ", no existing file")]
                    else Log cdn_logger ERROR [Thrown e]]).
Proof. step_m. by destruct (errno_is_ENOENT e). Qed.

Lemma on_settled_setTopic fs id path r s :
  awaiting s !! id = Some (setTopic_resume path) →
  dispatch fs (Settled id r) s =
    match
      setTopic_after path r
        {| topics := topics s;
           awaiting := delete id (awaiting s);
           next_call := next_call s |}
    with
    | (c, s', tr) => (c, s', tr)
    end.
Proof.
  intros Hk. unfold dispatch, on_settled, resume, bind. rewrite Hk. simpl.
  by destruct (setTopic_after _ _ _) as [[c s'] tr].
Qed.

Lemma on_settled_unsetTopic fs id path r s :
  awaiting s !! id = Some (unsetTopic_resume path) →
  dispatch fs (Settled id r) s =
    match
      unsetTopic_after path r
        {| topics := topics s;
           awaiting := delete id (awaiting s);
           next_call := next_call s |}
    with
    | (c, s', tr) => (c, s', tr)
    end.
Proof.
  intros Hk. unfold dispatch, on_settled, resume, bind. rewrite Hk. simpl.
  by destruct (unsetTopic_after _ _ _) as [[c s'] tr].
Qed.

Lemma on_settled_nothing fs id r s :
  awaiting s !! id = None →
  dispatch fs (Settled id r) s =
    (Normal tt,
     {| topics := topics s;
        awaiting := delete id (awaiting s);
        next_call := next_call s |}, []).
Proof.
  intros Hk. unfold dispatch, on_settled, resume, bind. by rewrite Hk.
Qed.

(** *** What the callbacks do, by membership in the tracked set *)

Lemma on_change_untracked fs path s :
  path ∉ topics s →
  dispatch fs (FsChange path) s = (Normal tt, s, []).
Proof.
  intros Hp. unfold dispatch, on_change, topics_has, bind.
  by rewrite bool_decide_eq_false_2.
Qed.

Lemma on_change_tracked fs path s :
  path ∈ topics s →
  dispatch fs (FsChange path) s =
    (Normal tt, state_of (setTopic fs path s),
     ConsoleLog ("Updated topic " +:+ path) :: trace_of (setTopic fs path s)).
Proof.
  intros Hp. unfold dispatch, on_change, topics_has, bind at 1.
  rewrite bool_decide_eq_true_2 by done.
  unfold mbind, M_bind, bind, emit.
  pose proof (setTopic_normal fs path s) as Hn.
  destruct (setTopic fs path s) as [[c s'] tr].
  unfold completion_of, state_of, trace_of in *. simpl in *. by subst c.
Qed.

Lemma on_unlink_untracked fs path s :
  path ∉ topics s →
  dispatch fs (FsUnlink path) s =
    (Normal tt, s, [ConsoleLog ("File " +:+ path +:+ " unlinked")]).
Proof.
  intros Hp. unfold dispatch, on_unlink, topics_has, mbind, M_bind, bind, emit.
  by rewrite bool_decide_eq_false_2.
Qed.

Lemma on_unlink_tracked fs path s :
  path ∈ topics s →
  dispatch fs (FsUnlink path) s =
    (Normal tt,
     {| topics := topics s;
        awaiting := <[next_call s := unsetTopic_resume path]> (awaiting s);
        next_call := S (next_call s) |},
     [ConsoleLog ("File " +:+ path +:+ " unlinked");
      ServerCall (next_call s) (topics_remove path);
      ConsoleLog ("Removed topic " +:+ path)]).
Proof.
  intros Hp. unfold dispatch, on_unlink, topics_has, mbind, M_bind, bind, emit.
  by rewrite bool_decide_eq_true_2.
Qed.

Lemma onMissingTopic_eq fs n s :
  dispatch fs (MissingTopic n) s =
    (Normal tt, state_of (setTopic fs (mt_path n) s),
     Log root_logger INFO
       [Text ("Missing topic notification: path=" +:+ mt_path n +:+
              ", selector=" +:+ mt_selector n +:+
              ", session=" +:+ mt_sessionID n)]
     :: trace_of (setTopic fs (mt_path n) s) ++ [Proceed n]).
Proof.
  unfold dispatch, onMissingTopic, handleMissingTopic.
  unfold mbind, M_bind, bind, try_catch at 1, emit.
  pose proof (setTopic_normal fs (mt_path n) s) as Hn.
  destruct (setTopic fs (mt_path n) s) as [[c s'] tr].
  unfold completion_of, state_of, trace_of in *. simpl in *. by subst c.
Qed.

(** *** Parked bodies and fresh identifiers *)

(** How one turn changes [awaiting] and [next_call]: not at all, or it parks
    one body for the path of the event under the fresh identifier, or it
    takes out the body of the call that settled. *)
Lemma dispatch_awaiting fs ev s :
  let s' := state_of (dispatch fs ev s) in
  (awaiting s' = awaiting s ∧ next_call s' = next_call s)
  ∨ (∃ k, awaiting s' = <[next_call s := k]> (awaiting s)
          ∧ next_call s' = S (next_call s)
          ∧ event_path ev = Some (cont_path k))
  ∨ (∃ id r, ev = Settled id r
             ∧ awaiting s' = delete id (awaiting s)
             ∧ next_call s' = next_call s).
Proof.
  assert (Hset : ∀ path,
    let s' := state_of (setTopic fs path s) in
    (awaiting s' = awaiting s ∧ next_call s' = next_call s)
    ∨ (awaiting s' = <[next_call s := setTopic_resume path]> (awaiting s)
       ∧ next_call s' = S (next_call s))).
  { intros path.
    destruct (setTopic_cases fs path)
      as [[errno Hfs] | [(text & Hfs & Hp) | (text & content & Hfs & Hp)]].
    - rewrite (setTopic_no_file _ _ _ _ Hfs). by left.
    - rewrite (setTopic_bad_json _ _ _ _ Hfs Hp). by left.
    - rewrite (setTopic_writes _ _ _ _ _ Hfs Hp). by right. }
  destruct ev as [path | path | path type | path type | | error | n
                 | path | path | path error | id r].
  - destruct (decide (path ∈ topics s)) as [Hin | Hout].
    + rewrite (on_change_tracked _ _ _ Hin).
      destruct (Hset path) as [H | [H1 H2]]; [by left | right; left].
      by exists (setTopic_resume path).
    + rewrite (on_change_untracked _ _ _ Hout). by left.
  - destruct (decide (path ∈ topics s)) as [Hin | Hout].
    + rewrite (on_unlink_tracked _ _ _ Hin). right; left.
      by exists (unsetTopic_resume path).
    + rewrite (on_unlink_untracked _ _ _ Hout). by left.
  - left. by destruct type.
  - by left.
  - by left.
  - by left.
  - rewrite onMissingTopic_eq.
    destruct (Hset (mt_path n)) as [H | [H1 H2]]; [by left | right; left].
    by exists (setTopic_resume (mt_path n)).
  - by left.
  - by left.
  - by left.
  - right; right. exists id, r. split; [done |].
    destruct (awaiting s !! id) as [[path | path] |] eqn:Hk.
    + rewrite (on_settled_setTopic _ _ _ _ _ Hk).
      destruct r as [| e]; [done |]. by rewrite setTopic_after_rejected.
    + rewrite (on_settled_unsetTopic _ _ _ _ _ Hk). by destruct r.
    + by rewrite (on_settled_nothing _ _ _ _ Hk).
Qed.

Lemma dispatch_wf fs ev s : wf s → wf (state_of (dispatch fs ev s)).
Proof.
  intros Hwf id.
  destruct (dispatch_awaiting fs ev s)
    as [[Ha Hn] | [(k & Ha & Hn & _) | (id' & r & _ & Ha & Hn)]];
    rewrite Ha, Hn.
  - apply Hwf.
  - destruct (decide (next_call s = id)) as [<- | Hne]; [lia |].
    rewrite lookup_insert_ne by done. intros H%Hwf. lia.
  - destruct (decide (id' = id)) as [<- | Hne].
    + rewrite lookup_delete_eq. by intros [? ?].
    + rewrite lookup_delete_ne by done. apply Hwf.
Qed.

(** A parked body stays parked until its own call settles. *)
Lemma dispatch_keeps_parked fs ev s id k :
  wf s →
  awaiting s !! id = Some k →
  (∀ r, ev ≠ Settled id r) →
  awaiting (state_of (dispatch fs ev s)) !! id = Some k.
Proof.
  intros Hwf Hk Hne.
  destruct (dispatch_awaiting fs ev s)
    as [[Ha Hn] | [(k' & Ha & Hn & _) | (id' & r & Hev & Ha & Hn)]];
    rewrite Ha.
  - done.
  - assert (id < next_call s) by (apply Hwf; by rewrite Hk).
    rewrite lookup_insert_ne by lia. done.
  - rewrite lookup_delete_ne; [done |]. intros ->. by apply (Hne r).
Qed.

Lemma run_cons fs ev rest s :
  run ((fs, ev) :: rest) s =
    ((run rest (state_of (dispatch fs ev s))).1,
     trace_of (dispatch fs ev s) ++ (run rest (state_of (dispatch fs ev s))).2).
Proof. reflexivity. Qed.

Lemma run_app evs1 evs2 s :
  run (evs1 ++ evs2) s =
    ((run evs2 (run evs1 s).1).1, (run evs1 s).2 ++ (run evs2 (run evs1 s).1).2).
Proof.
  revert s. induction evs1 as [| [fs ev] evs1 IH]; intros s; simpl.
  - by destruct (run evs2 s).
  - rewrite IH. simpl. by rewrite app_assoc.
Qed.

Lemma run_wf evs s : wf s → wf (run evs s).1.
Proof.
  revert s. induction evs as [| [fs ev] evs IH]; intros s Hwf; simpl; [done |].
  apply IH. by apply dispatch_wf.
Qed.

Lemma run_keeps_parked evs s id k :
  wf s →
  awaiting s !! id = Some k →
  unsettled id evs →
  awaiting (run evs s).1 !! id = Some k.
Proof.
  revert s. induction evs as [| [fs ev] evs IH]; intros s Hwf Hk Hu; simpl;
    [done |].
  apply Forall_cons in Hu as [Hev Hu]. simpl in Hev.
  apply IH; [by apply dispatch_wf | by apply dispatch_keeps_parked | done].
Qed.

Lemma initial_wf : wf initial.
Proof. intros id. simpl. rewrite lookup_empty. by intros [? ?]. Qed.

(** *** Every effect is at the path of the event *)

Lemma setTopic_at_path fs path s : at_path path (trace_of (setTopic fs path s)).
Proof.
  unfold at_path.
  destruct (setTopic_cases fs path)
    as [[errno Hfs] | [(text & Hfs & Hp) | (text & content & Hfs & Hp)]].
  - rewrite (setTopic_no_file _ _ _ _ Hfs). unfold trace_of. simpl.
    destruct (errno =? -2)%Z; repeat constructor; simpl; congruence.
  - rewrite (setTopic_bad_json _ _ _ _ Hfs Hp).
    repeat constructor; simpl; congruence.
  - rewrite (setTopic_writes _ _ _ _ _ Hfs Hp).
    repeat constructor; simpl; congruence.
Qed.

Lemma dispatch_at_event_path fs ev s :
  Forall (λ e, ∀ q, effect_path e = Some q → event_path ev = Some q)
    (trace_of (dispatch fs ev s)).
Proof.
  destruct ev as [path | path | path type | path type | | error | n
                 | path | path | path error | id r].
  - destruct (decide (path ∈ topics s)) as [Hin | Hout].
    + rewrite (on_change_tracked _ _ _ Hin). unfold trace_of at 1. simpl.
      constructor; [done |].
      eapply Forall_impl; [apply setTopic_at_path |].
      intros e He q Hq. by rewrite (He q Hq).
    + rewrite (on_change_untracked _ _ _ Hout). constructor.
  - destruct (decide (path ∈ topics s)) as [Hin | Hout].
    + rewrite (on_unlink_tracked _ _ _ Hin).
      repeat constructor; simpl; congruence.
    + rewrite (on_unlink_untracked _ _ _ Hout).
      repeat constructor; simpl; congruence.
  - destruct type; repeat constructor; simpl; congruence.
  - constructor.
  - constructor.
  - repeat constructor; simpl; congruence.
  - rewrite onMissingTopic_eq. unfold trace_of at 1. simpl.
    constructor; [done |]. apply Forall_app. split.
    + eapply Forall_impl; [apply setTopic_at_path |].
      intros e He q Hq. by rewrite (He q Hq).
    + repeat constructor; simpl; congruence.
  - repeat constructor; simpl; congruence.
  - repeat constructor; simpl; congruence.
  - repeat constructor; simpl; congruence.
  - destruct (awaiting s !! id) as [[path | path] |] eqn:Hk.
    + rewrite (on_settled_setTopic _ _ _ _ _ Hk).
      destruct r as [| e]; [constructor |].
      rewrite setTopic_after_rejected. unfold trace_of. simpl.
      destruct (errno_is_ENOENT e); repeat constructor; simpl; congruence.
    + rewrite (on_settled_unsetTopic _ _ _ _ _ Hk).
      destruct r; constructor.
    + rewrite (on_settled_nothing _ _ _ _ Hk). constructor.
Qed.

(** A path enters the tracked set from the event of the turn or from the
    body that the turn resumes. *)
Lemma dispatch_topics fs ev s q :
  q ∈ topics (state_of (dispatch fs ev s)) →
  q ∈ topics s
  ∨ event_path ev = Some q
  ∨ ∃ id r, ev = Settled id r ∧ awaiting s !! id = Some (setTopic_resume q).
Proof.
  destruct ev as [path | path | path type | path type | | error | n
                 | path | path | path error | id r].
  - destruct (decide (path ∈ topics s)) as [Hin | Hout].
    + rewrite (on_change_tracked _ _ _ Hin). unfold state_of at 1. simpl.
      rewrite setTopic_topics. by left.
    + rewrite (on_change_untracked _ _ _ Hout). by left.
  - destruct (decide (path ∈ topics s)) as [Hin | Hout].
    + rewrite (on_unlink_tracked _ _ _ Hin). by left.
    + rewrite (on_unlink_untracked _ _ _ Hout). by left.
  - destruct type; unfold state_of; simpl; try (by left).
    + intros [->%elem_of_singleton | H]%elem_of_union; [right | ]; by left.
    + intros [H _]%elem_of_difference. by left.
    + intros [->%elem_of_singleton | H]%elem_of_union; [right | ]; by left.
    + intros [H _]%elem_of_difference. by left.
  - by left.
  - by left.
  - by left.
  - rewrite onMissingTopic_eq. unfold state_of at 1. simpl.
    rewrite setTopic_topics. by left.
  - by left.
  - by left.
  - by left.
  - destruct (awaiting s !! id) as [[path | path] |] eqn:Hk.
    + rewrite (on_settled_setTopic _ _ _ _ _ Hk).
      destruct r as [| e].
      * unfold state_of. simpl.
        intros [->%elem_of_singleton | H]%elem_of_union; [| by left].
        right; right. by exists id, Resolved.
      * rewrite setTopic_after_rejected. by left.
    + rewrite (on_settled_unsetTopic _ _ _ _ _ Hk).
      destruct r as [| e]; unfold state_of; simpl; [| by left].
      intros [H _]%elem_of_difference. by left.
    + rewrite (on_settled_nothing _ _ _ _ Hk). by left.
Qed.

Lemma dispatch_scoped prefix fs ev s :
  in_scope prefix (fs, ev) →
  scoped prefix s →
  scoped prefix (state_of (dispatch fs ev s)).
Proof.
  intros Hev [Ht Ha]. split.
  - intros q [H | [H | (id & r & _ & H)]]%dispatch_topics.
    + by apply Ht.
    + by apply Hev.
    + apply (Ha _ _ H).
  - intros id k.
    destruct (dispatch_awaiting fs ev s)
      as [[Hs _] | [(k' & Hs & _ & Hp) | (id' & r & _ & Hs & _)]]; rewrite Hs.
    + apply Ha.
    + destruct (decide (next_call s = id)) as [<- | Hne].
      * rewrite lookup_insert_eq. intros [= <-]. by apply Hev.
      * rewrite lookup_insert_ne by done. apply Ha.
    + destruct (decide (id' = id)) as [<- | Hne].
      * by rewrite lookup_delete_eq.
      * rewrite lookup_delete_ne by done. apply Ha.
Qed.

Lemma run_scoped prefix evs s :
  Forall (in_scope prefix) evs →
  scoped prefix s →
  scoped prefix (run evs s).1
  ∧ Forall (λ e, ∀ q, effect_path e = Some q → under prefix q = true)
      (run evs s).2.
Proof.
  revert s. induction evs as [| [fs ev] evs IH]; intros s Hevs Hs.
  - by split; [| constructor].
  - apply Forall_cons in Hevs as [Hev Hevs]. rewrite run_cons. simpl.
    destruct (IH (state_of (dispatch fs ev s)) Hevs) as [IH1 IH2];
      [by apply dispatch_scoped |].
    split; [done |]. apply Forall_app. split; [| done].
    eapply Forall_impl; [apply dispatch_at_event_path |].
    intros e He q Hq. apply Hev. simpl. by apply He.
Qed.

(** ** The properties *)

(** C5: a missing-topic request for a path whose backing file is absent
    ([readFileSync] throws with [errno] -2) returns normally, logs the
    warning of [setTopic], starts no call on the session, leaves the state as
    it was, and calls [proceed()] on the notification. *)
Theorem missing_topic_without_file_proceeds fs n s :
  fs (mt_path n) = inl (-2)%Z →
  dispatch fs (MissingTopic n) s =
    (Normal tt, s,
     [Log root_logger INFO
        [Text ("Missing topic notification: path=" +:+ mt_path n +:+
               ", selector=" +:+ mt_selector n +:+
               ", session=" +:+ mt_sessionID n)];
      FsRead (mt_path n);
      Log cdn_logger WARN
        [Text ("Cannot satisfy missing topic " +:+ mt_path n +:+
               ", no existing file")];
      Proceed n])
  ∧ calls_of (trace_of (dispatch fs (MissingTopic n) s)) = [].
Proof.
  intros Hfs. rewrite onMissingTopic_eq.
  by rewrite (setTopic_no_file _ _ _ _ Hfs).
Qed.

(** C6: when the file of [path] exists and its text does not parse as JSON,
    [setTopic] returns normally, logs the [SyntaxError] at error level on the
    [CDNHandler] logger, starts no call on the session (no write, no
    removal) and leaves the mirror's state as it was. *)
Theorem setTopic_malformed_content fs path s text :
  fs path = inr text →
  JSON_parse text = None →
  setTopic fs path s =
    (Normal tt, s, [FsRead path; Log cdn_logger ERROR [Thrown SyntaxError]])
  ∧ calls_of (trace_of (setTopic fs path s)) = [].
Proof.
  intros Hfs Hp. by rewrite (setTopic_bad_json _ _ _ _ Hfs Hp).
Qed.

(** C8: [onTopicNotification] with kind ADDED or SELECTED inserts the path
    into the tracked set, with kind REMOVED or DESELECTED removes it, and
    with any other kind leaves the state as it was; the other callbacks of
    the listener leave the state as it was. *)
Theorem notification_updates_tracked_set path type error s :
  let s' := state_of (onTopicNotification path type s) in
  completion_of (onTopicNotification path type s) = Normal tt
  ∧ calls_of (trace_of (onTopicNotification path type s)) = []
  ∧ (match type with
     | ADDED | SELECTED =>
         path ∈ topics s' ∧ topics s' = {[path]} ∪ topics s
     | REMOVED | DESELECTED =>
         (path ∉ topics s') ∧ topics s' = topics s ∖ {[path]}
     | UNKNOWN _ => s' = s
     end)
  ∧ state_of (onDescendantNotification path type s) = s
  ∧ state_of (listener_onClose s) = s
  ∧ state_of (listener_onError error s) = s.
Proof.
  destruct type; cbv zeta; step_m; repeat split; try done;
    first [apply elem_of_union_l, elem_of_singleton; reflexivity
          | apply not_elem_of_difference; right; by apply elem_of_singleton].
Qed.

(** C10: a failure inside [setTopic] leaves the tracked set as it was.  With
    the file missing or unreadable, or its text not JSON, the whole state is
    unchanged; the part of [setTopic] before its [await] never changes the
    tracked set; when the write is rejected the resumed body only logs; the
    path is added when, and only when, the write has resolved. *)
Theorem setTopic_failure_keeps_tracked_set fs path s :
  (∀ errno, fs path = inl errno → state_of (setTopic fs path s) = s)
  ∧ (∀ text, fs path = inr text → JSON_parse text = None →
       state_of (setTopic fs path s) = s)
  ∧ topics (state_of (setTopic fs path s)) = topics s
  ∧ (∀ id e,
       awaiting s !! id = Some (setTopic_resume path) →
       completion_of (dispatch fs (Settled id (Rejected e)) s) = Normal tt
       ∧ topics (state_of (dispatch fs (Settled id (Rejected e)) s))
         = topics s)
  ∧ (∀ id,
       awaiting s !! id = Some (setTopic_resume path) →
       topics (state_of (dispatch fs (Settled id Resolved) s))
       = {[path]} ∪ topics s).
Proof.
  split; [| split; [| split; [| split]]].
  - intros errno Hfs. by rewrite (setTopic_no_file _ _ _ _ Hfs).
  - intros text Hfs Hp. by rewrite (setTopic_bad_json _ _ _ _ Hfs Hp).
  - apply setTopic_topics.
  - intros id e Hk. rewrite (on_settled_setTopic _ _ _ _ _ Hk).
    by rewrite setTopic_after_rejected.
  - intros id Hk. by rewrite (on_settled_setTopic _ _ _ _ _ Hk).
Qed.

(** C1: when the ['change'] callback for [path] starts a call on the
    session and that call resolves, whatever other events come in between,
    [path] is in the tracked set afterwards, and the call is the write, to
    the topic [path] with the default specification, of the value that
    [JSON.parse] gives for the text read from the file [path] during the
    callback. *)
Theorem change_success_tracks_and_writes_file fs path s id c mid fs' :
  wf s →
  (id, c) ∈ calls_of (trace_of (dispatch fs (FsChange path) s)) →
  unsettled id mid →
  path ∈ topics
    (run ((fs, FsChange path) :: mid ++ [(fs', Settled id Resolved)]) s).1
  ∧ ∃ text value,
      fs path = inr text ∧ JSON_parse text = Some value
      ∧ c = topicUpdate_set path datatypes_json value defaultTopicSpec.
Proof.
  intros Hwf Hcall Hmid.
  destruct (decide (path ∈ topics s)) as [Hin | Hout];
    [| rewrite (on_change_untracked _ _ _ Hout) in Hcall; simpl in Hcall;
       by apply elem_of_nil in Hcall].
  assert (Hwf1 := dispatch_wf fs (FsChange path) s Hwf).
  rewrite run_cons, run_app, !run_cons.
  revert Hcall Hwf1. rewrite (on_change_tracked _ _ _ Hin).
  destruct (setTopic_cases fs path)
    as [[errno Hfs] | [(text & Hfs & Hp) | (text & content & Hfs & Hp)]].
  - rewrite (setTopic_no_file _ _ _ _ Hfs). simpl.
    destruct (errno =? -2)%Z; simpl; by intros ?%elem_of_nil.
  - rewrite (setTopic_bad_json _ _ _ _ Hfs Hp). simpl.
    by intros ?%elem_of_nil.
  - rewrite (setTopic_writes _ _ _ _ _ Hfs Hp). unfold state_of. simpl.
    intros Hcall%list_elem_of_singleton Hwf1. injection Hcall as -> ->.
    split; [| by exists text, content].
    match goal with
    | |- context [run mid ?s1] =>
        assert (Hk : awaiting (run mid s1).1 !! next_call s
                     = Some (setTopic_resume path))
          by (apply run_keeps_parked;
              [done | simpl; apply lookup_insert_eq | done])
    end.
    rewrite (on_settled_setTopic _ _ _ _ _ Hk). simpl.
    apply elem_of_union_l. by apply elem_of_singleton.
Qed.

(** C3, as the code has it: the ['unlink'] callback for a tracked [path]
    starts the removal of the topic and returns with [path] still in the
    tracked set, its body parked on the call; [path] leaves the tracked set
    when that call resolves, whatever other events come in between. *)
Theorem unlink_untracks_when_removal_resolves fs path s mid fs' :
  wf s →
  path ∈ topics s →
  unsettled (next_call s) mid →
  let r := dispatch fs (FsUnlink path) s in
  calls_of (trace_of r) = [(next_call s, topics_remove path)]
  ∧ path ∈ topics (state_of r)
  ∧ awaiting (state_of r) !! next_call s = Some (unsetTopic_resume path)
  ∧ path ∉ topics
      (run (mid ++ [(fs', Settled (next_call s) Resolved)]) (state_of r)).1.
Proof.
  intros Hwf Hin Hmid r.
  assert (Hwf1 := dispatch_wf fs (FsUnlink path) s Hwf).
  subst r. revert Hwf1. rewrite (on_unlink_tracked _ _ _ Hin).
  unfold state_of, trace_of. simpl. intros Hwf1.
  split; [done |]. split; [done |].
  split; [apply lookup_insert_eq |].
  rewrite run_app, run_cons. simpl.
  match goal with
  | |- context [run mid ?s1] =>
      assert (Hk : awaiting (run mid s1).1 !! next_call s
                   = Some (unsetTopic_resume path))
        by (apply run_keeps_parked;
            [done | simpl; apply lookup_insert_eq | done])
  end.
  rewrite (on_settled_unsetTopic _ _ _ _ _ Hk). simpl.
  apply not_elem_of_difference. right. by apply elem_of_singleton.
Qed.

(** C7, as the code has it: the ['unlink'] callback run for [path] a second
    time, after the removal that its first run started (if it started one)
    has resolved, returns normally, starts no call on the session and leaves
    the state as it is; the first run returns normally too. *)
Theorem unlink_twice_is_idempotent fs fs' fs'' path s :
  let r1 := dispatch fs (FsUnlink path) s in
  let s1 := resolve_calls fs' (calls_of (trace_of r1)) (state_of r1) in
  completion_of r1 = Normal tt
  ∧ dispatch fs'' (FsUnlink path) s1 =
      (Normal tt, s1, [ConsoleLog ("File " +:+ path +:+ " unlinked")])
  ∧ calls_of (trace_of (dispatch fs'' (FsUnlink path) s1)) = [].
Proof.
  intros r1 s1.
  assert (Hgone : (path ∉ topics s1) ∧ completion_of r1 = Normal tt).
  { subst s1 r1. destruct (decide (path ∈ topics s)) as [Hin | Hout].
    - rewrite (on_unlink_tracked _ _ _ Hin).
      unfold state_of, trace_of, completion_of. simpl.
      rewrite (on_settled_unsetTopic _ _ path); [| apply lookup_insert_eq].
      simpl. split; [| done].
      apply not_elem_of_difference. right. by apply elem_of_singleton.
    - by rewrite (on_unlink_untracked _ _ _ Hout). }
  destruct Hgone as [Hgone Hn].
  split; [done |]. by rewrite (on_unlink_untracked _ _ _ Hgone).
Qed.

(** C2, as the code has it: with [cdn/b.json] holding the object with
    field [x] and not tracked, the ['change'] callback for it does nothing at
    all; a missing-topic request for it starts the write of the parsed value
    to the topic [cdn/b.json] with the removal policy of
    [defaultTopicSpec], and once that write resolves [cdn/b.json] is added to
    the tracked set. *)
Theorem untracked_file_created_on_request_only fs fs' s value n :
  fs path_b = inr text_b →
  JSON_parse text_b = Some value →
  path_b ∉ topics s →
  mt_path n = path_b →
  dispatch fs (FsChange path_b) s = (Normal tt, s, [])
  ∧ calls_of (trace_of (dispatch fs (MissingTopic n) s))
    = [(next_call s,
        topicUpdate_set path_b datatypes_json value defaultTopicSpec)]
  ∧ spec_properties (specification defaultTopicSpec)
    = [("REMOVAL", "when subscriptions < 1 for 1m")]
  ∧ (path_b ∉ topics (state_of (dispatch fs (MissingTopic n) s)))
  ∧ topics
      (run [(fs, MissingTopic n); (fs', Settled (next_call s) Resolved)] s).1
    = {[path_b]} ∪ topics s.
Proof.
  intros Hfs Hp Hout Hn.
  split; [by apply on_change_untracked |].
  rewrite !run_cons, onMissingTopic_eq, Hn.
  rewrite (setTopic_writes _ _ _ _ _ Hfs Hp).
  unfold state_of at 1 2, trace_of. simpl.
  split; [done |]. split; [done |]. split; [done |].
  rewrite (on_settled_setTopic _ _ path_b); [done |].
  simpl. apply lookup_insert_eq.
Qed.

(** C4, as the code has it: the watcher's ['change'] and ['unlink'] callbacks
    test membership in the tracked set and start no call for a path that is
    not tracked; the missing-topic callback makes no such test: what it does
    is the same whatever the tracked set holds. *)
Theorem membership_tested_by_watcher_callbacks fs path n s s2 :
  path ∉ topics s →
  next_call s2 = next_call s →
  dispatch fs (FsChange path) s = (Normal tt, s, [])
  ∧ dispatch fs (FsUnlink path) s =
      (Normal tt, s, [ConsoleLog ("File " +:+ path +:+ " unlinked")])
  ∧ trace_of (dispatch fs (MissingTopic n) s2)
    = trace_of (dispatch fs (MissingTopic n) s)
  ∧ completion_of (dispatch fs (MissingTopic n) s2)
    = completion_of (dispatch fs (MissingTopic n) s).
Proof.
  intros Hout Hnext.
  split; [by apply on_change_untracked |].
  split; [by apply on_unlink_untracked |].
  rewrite !onMissingTopic_eq. split; [| done].
  unfold trace_of at 1 3. simpl. do 2 f_equal.
  destruct (setTopic_cases fs (mt_path n))
    as [[errno Hfs] | [(text & Hfs & Hp) | (text & content & Hfs & Hp)]].
  - by rewrite !(setTopic_no_file _ _ _ _ Hfs).
  - by rewrite !(setTopic_bad_json _ _ _ _ Hfs Hp).
  - rewrite !(setTopic_writes _ _ _ _ _ Hfs Hp). unfold trace_of. simpl.
    by rewrite Hnext.
Qed.

(** C9: [main] registers the notification selector on the root and its
    descendants, the watcher on the root and the missing-topic handler on
    the root, and leaves the mirror in its initial state; from there, as
    long as the events that these sources deliver carry paths under the
    root, no file read, topic write or topic removal is ever made at a path
    that is not under the root, and no such path enters the tracked set. *)
Theorem effects_stay_under_root sessionId host evs path :
  Forall (in_scope root) evs →
  under root path = false →
  registrations_of (trace_of (main sessionId host initial))
  = [NotificationsAddListener; RegistrationSelect ("?" +:+ root +:+ "//");
     ChokidarWatch root; AddMissingTopicHandler root]
  ∧ state_of (main sessionId host initial) = initial
  ∧ Forall (λ e, effect_path e ≠ Some path) (run evs initial).2
  ∧ path ∉ topics (run evs initial).1.
Proof.
  intros Hevs Hpath. split; [done |]. split; [done |].
  destruct (run_scoped root evs initial Hevs) as [[Ht _] Hf].
  { split; [intros q Hq; by apply elem_of_empty in Hq |].
    intros id k. simpl. by rewrite lookup_empty. }
  split.
  - eapply Forall_impl; [apply Hf |]. intros e He Heq.
    rewrite (He path Heq) in Hpath. done.
  - intros Hin. rewrite (Ht path Hin) in Hpath. done.
Qed.

(** *** Support for the further properties *)

Lemma setTopic_state fs path s :
  state_of (setTopic fs path s) = s
  ∨ state_of (setTopic fs path s)
    = {| topics := topics s;
         awaiting := <[next_call s := setTopic_resume path]> (awaiting s);
         next_call := S (next_call s) |}.
Proof.
  destruct (setTopic_cases fs path)
    as [[errno Hfs] | [(text & Hfs & Hp) | (text & content & Hfs & Hp)]].
  - rewrite (setTopic_no_file _ _ _ _ Hfs). by left.
  - rewrite (setTopic_bad_json _ _ _ _ Hfs Hp). by left.
  - rewrite (setTopic_writes _ _ _ _ _ Hfs Hp). by right.
Qed.

Lemma delete_twice (T : gset string) p : (T ∖ {[p]}) ∖ {[p]} = T ∖ {[p]}.
Proof. apply set_eq. intros x. rewrite !elem_of_difference. tauto. Qed.

Lemma add_twice (T : gset string) p : {[p]} ∪ ({[p]} ∪ T) = {[p]} ∪ T.
Proof. apply set_eq. intros x. rewrite !elem_of_union. tauto. Qed.

Lemma add_then_delete_fresh (T : gset string) p :
  p ∉ T → ({[p]} ∪ T) ∖ {[p]} = T.
Proof.
  intros Hp. apply set_eq. intros x.
  rewrite elem_of_difference, elem_of_union, elem_of_singleton.
  split; [tauto |]. intros Hx. split; [tauto |]. by intros ->.
Qed.

Lemma add_after_delete (T : gset string) p :
  {[p]} ∪ (T ∖ {[p]}) = {[p]} ∪ T.
Proof.
  apply set_eq. intros x.
  rewrite !elem_of_union, elem_of_difference, elem_of_singleton.
  destruct (decide (x = p)); tauto.
Qed.

Lemma delete_after_add (T : gset string) p :
  ({[p]} ∪ T) ∖ {[p]} = T ∖ {[p]}.
Proof.
  apply set_eq. intros x.
  rewrite !elem_of_difference, elem_of_union, elem_of_singleton. tauto.
Qed.

Lemma add_other (T : gset string) p q : q ≠ p → q ∈ {[p]} ∪ T ↔ q ∈ T.
Proof. intros. rewrite elem_of_union, elem_of_singleton. tauto. Qed.

Lemma delete_other (T : gset string) p q : q ≠ p → q ∈ T ∖ {[p]} ↔ q ∈ T.
Proof. intros. rewrite elem_of_difference, elem_of_singleton. tauto. Qed.

Lemma dispatch_notified fs path type s :
  dispatch fs (TopicNotified path type) s = onTopicNotification path type s.
Proof. reflexivity. Qed.

Lemma known_parks P path s :
  P path →
  known P s →
  known P {| topics := topics s;
             awaiting := <[next_call s := setTopic_resume path]> (awaiting s);
             next_call := S (next_call s) |}.
Proof.
  intros Hp [Ht Ha]. split; [done |]. intros id q. simpl.
  destruct (decide (next_call s = id)) as [<- | Hne].
  - rewrite lookup_insert_eq. by intros [= <-].
  - rewrite lookup_insert_ne by done. apply Ha.
Qed.

Lemma dispatch_known P fs ev s :
  (∀ q, introduces ev q → P q) →
  known P s →
  known P (state_of (dispatch fs ev s)).
Proof.
  intros Hev Hs. pose proof Hs as [Ht Ha].
  destruct ev as [path | path | path type | path type | | error | n
                 | path | path | path error | id r]; try done.
  - destruct (decide (path ∈ topics s)) as [Hin | Hout].
    + rewrite (on_change_tracked _ _ _ Hin). unfold state_of at 1. simpl.
      destruct (setTopic_state fs path s) as [-> | ->]; [done |].
      apply known_parks; [by apply Ht | done].
    + by rewrite (on_change_untracked _ _ _ Hout).
  - destruct (decide (path ∈ topics s)) as [Hin | Hout].
    + rewrite (on_unlink_tracked _ _ _ Hin). split; [done |].
      intros id q. unfold state_of. simpl.
      destruct (decide (next_call s = id)) as [<- | Hne].
      * by rewrite lookup_insert_eq.
      * rewrite lookup_insert_ne by done. apply Ha.
    + by rewrite (on_unlink_untracked _ _ _ Hout).
  - destruct type; try done; (split; [| done]); intros q;
      unfold state_of; simpl.
    + intros [->%elem_of_singleton | H]%elem_of_union; [| by apply Ht].
      by apply Hev.
    + intros [H _]%elem_of_difference. by apply Ht.
    + intros [->%elem_of_singleton | H]%elem_of_union; [| by apply Ht].
      by apply Hev.
    + intros [H _]%elem_of_difference. by apply Ht.
  - rewrite onMissingTopic_eq. unfold state_of at 1. simpl.
    destruct (setTopic_state fs (mt_path n) s) as [-> | ->]; [done |].
    apply known_parks; [by apply Hev | done].
  - assert (Hrest : known P {| topics := topics s;
                               awaiting := delete id (awaiting s);
                               next_call := next_call s |}).
    { split; [done |]. intros id' q. simpl.
      intros [_ H]%lookup_delete_Some. by apply (Ha id'). }
    destruct (awaiting s !! id) as [[path | path] |] eqn:Hk.
    + rewrite (on_settled_setTopic _ _ _ _ _ Hk). destruct r as [| e].
      * destruct Hrest as [Ht' Ha']. split; [| done]. intros q.
        unfold state_of. simpl.
        intros [->%elem_of_singleton | H]%elem_of_union; [| by apply Ht].
        by apply (Ha id).
      * by rewrite setTopic_after_rejected.
    + rewrite (on_settled_unsetTopic _ _ _ _ _ Hk). destruct r as [| e].
      * destruct Hrest as [Ht' Ha']. split; [| done]. intros q.
        unfold state_of. simpl. intros [H _]%elem_of_difference.
        by apply Ht.
      * done.
    + by rewrite (on_settled_nothing _ _ _ _ Hk).
Qed.

Lemma run_known P evs s :
  Forall (λ x, ∀ q, introduces x.2 q → P q) evs →
  known P s →
  known P (run evs s).1.
Proof.
  revert s. induction evs as [| [fs ev] evs IH]; intros s Hevs Hs; [done |].
  apply Forall_cons in Hevs as [Hev Hevs]. rewrite run_cons. simpl.
  apply IH; [done |]. by apply dispatch_known.
Qed.

(** ** Further properties of the mirror *)

(** X1: only a notification of the listener or the settlement of a call
    changes the tracked set: the watcher's callbacks, the missing-topic
    callback and the housekeeping callbacks leave it as it is in their own
    turn. *)
Theorem tracked_set_changes_only_on_notification_or_settlement fs ev s :
  notification_or_settlement ev = false →
  topics (state_of (dispatch fs ev s)) = topics s.
Proof.
  destruct ev as [path | path | path type | path type | | error | n
                 | path | path | path error | id r];
    try discriminate; intros _; try reflexivity.
  - destruct (decide (path ∈ topics s)) as [Hin | Hout].
    + rewrite (on_change_tracked _ _ _ Hin). apply setTopic_topics.
    + by rewrite (on_change_untracked _ _ _ Hout).
  - destruct (decide (path ∈ topics s)) as [Hin | Hout].
    + by rewrite (on_unlink_tracked _ _ _ Hin).
    + by rewrite (on_unlink_untracked _ _ _ Hout).
  - rewrite onMissingTopic_eq. apply setTopic_topics.
Qed.

(** X2: the one turn that does not return normally is the resumption of
    [unsetTopic] with a rejected removal, which has no [catch]; every other
    callback returns normally, on any filesystem and with any rejection. *)
Theorem only_rejected_removal_throws fs ev s :
  completion_of (dispatch fs ev s) =
    match ev with
    | Settled id (Rejected e) =>
        match awaiting s !! id with
        | Some (unsetTopic_resume _) => Throw e
        | _ => Normal tt
        end
    | _ => Normal tt
    end.
Proof.
  destruct ev as [path | path | path type | path type | | error | n
                 | path | path | path error | id r]; try reflexivity.
  - destruct (decide (path ∈ topics s)) as [Hin | Hout].
    + by rewrite (on_change_tracked _ _ _ Hin).
    + by rewrite (on_change_untracked _ _ _ Hout).
  - destruct (decide (path ∈ topics s)) as [Hin | Hout].
    + by rewrite (on_unlink_tracked _ _ _ Hin).
    + by rewrite (on_unlink_untracked _ _ _ Hout).
  - by destruct type.
  - by rewrite onMissingTopic_eq.
  - destruct (awaiting s !! id) as [[path | path] |] eqn:Hk.
    + rewrite (on_settled_setTopic _ _ _ _ _ Hk).
      destruct r as [| e]; [done |]. by rewrite setTopic_after_rejected.
    + rewrite (on_settled_unsetTopic _ _ _ _ _ Hk). by destruct r.
    + rewrite (on_settled_nothing _ _ _ _ Hk). by destruct r.
Qed.

(** X3: the ['unlink'] callback for a tracked path prints that the topic
    was removed as soon as it has started the removal; when that removal is
    then rejected, the resumed [unsetTopic] ends in a rejection that nothing
    handles, writes nothing, and leaves the path in the tracked set. *)
Theorem rejected_removal_leaves_path_tracked fs fs' path e s :
  path ∈ topics s →
  let r1 := dispatch fs (FsUnlink path) s in
  let r2 := dispatch fs' (Settled (next_call s) (Rejected e)) (state_of r1) in
  trace_of r1
  = [ConsoleLog ("File " +:+ path +:+ " unlinked");
     ServerCall (next_call s) (topics_remove path);
     ConsoleLog ("Removed topic " +:+ path)]
  ∧ completion_of r2 = Throw e
  ∧ trace_of r2 = []
  ∧ topics (state_of r2) = topics s
  ∧ path ∈ topics (state_of r2)
  ∧ awaiting (state_of r2) !! next_call s = None.
Proof.
  intros Hin r1 r2. subst r2 r1.
  rewrite (on_unlink_tracked _ _ _ Hin). unfold state_of, trace_of. simpl.
  rewrite (on_settled_unsetTopic _ _ path); [| apply lookup_insert_eq].
  unfold completion_of. simpl.
  split; [done |]. split; [done |]. split; [done |]. split; [done |].
  split; [done |]. apply lookup_delete_eq.
Qed.

(** X4: the missing-topic callback always returns normally and calls
    [proceed()] once, as its last effect, on any filesystem; the tracked set
    is as it was when it does, so the request proceeds before a topic that
    is being created has been written. *)
Theorem missing_topic_always_proceeds fs n s :
  completion_of (dispatch fs (MissingTopic n) s) = Normal tt
  ∧ topics (state_of (dispatch fs (MissingTopic n) s)) = topics s
  ∧ ∃ tr, trace_of (dispatch fs (MissingTopic n) s) = tr ++ [Proceed n]
          ∧ Forall (λ e, ∀ m, e ≠ Proceed m) tr.
Proof.
  rewrite onMissingTopic_eq. split; [done |].
  split; [apply setTopic_topics |].
  eexists. split; [unfold trace_of at 1; simpl; by rewrite app_comm_cons |].
  constructor; [done |].
  destruct (setTopic_cases fs (mt_path n))
    as [[errno Hfs] | [(text & Hfs & Hp) | (text & content & Hfs & Hp)]].
  - rewrite (setTopic_no_file _ _ _ _ Hfs). unfold trace_of. simpl.
    destruct (errno =? -2)%Z; by repeat constructor.
  - rewrite (setTopic_bad_json _ _ _ _ Hfs Hp). by repeat constructor.
  - rewrite (setTopic_writes _ _ _ _ _ Hfs Hp). by repeat constructor.
Qed.

(** X5: in the part of [setTopic] before its [await], the warning is logged
    exactly when reading the file fails with [errno] -2, and an error-level
    entry exactly when reading fails otherwise or the text is not JSON. *)
Theorem setTopic_log_level_tells_the_cause fs path s :
  ((∃ args, Log cdn_logger WARN args ∈ trace_of (setTopic fs path s))
   ↔ fs path = inl (-2)%Z)
  ∧ ((∃ args, Log cdn_logger ERROR args ∈ trace_of (setTopic fs path s))
     ↔ (∃ errno, fs path = inl errno ∧ errno ≠ (-2)%Z)
       ∨ (∃ text, fs path = inr text ∧ JSON_parse text = None)).
Proof.
  destruct (setTopic_cases fs path)
    as [[errno Hfs] | [(text & Hfs & Hp) | (text & content & Hfs & Hp)]].
  - rewrite (setTopic_no_file _ _ _ _ Hfs). unfold trace_of. simpl.
    destruct (Z.eqb_spec errno (-2)) as [-> | Hne]; split; split.
    + done.
    + intros _. eexists. apply list_elem_of_further, list_elem_of_here.
    + intros [args Hin]. apply elem_of_cons in Hin as [? | Hin]; [done |].
      by apply list_elem_of_singleton in Hin.
    + intros [(errno & Heq & Hne) | (text & Heq & _)]; congruence.
    + intros [args Hin]. apply elem_of_cons in Hin as [? | Hin]; [done |].
      by apply list_elem_of_singleton in Hin.
    + intros Heq. congruence.
    + intros _. left. by exists errno.
    + intros _. eexists. apply list_elem_of_further, list_elem_of_here.
  - rewrite (setTopic_bad_json _ _ _ _ Hfs Hp). unfold trace_of. simpl.
    split; split.
    + intros [args Hin]. apply elem_of_cons in Hin as [? | Hin]; [done |].
      by apply list_elem_of_singleton in Hin.
    + intros Heq. congruence.
    + intros _. right. by exists text.
    + intros _. eexists. apply list_elem_of_further, list_elem_of_here.
  - rewrite (setTopic_writes _ _ _ _ _ Hfs Hp). unfold trace_of. simpl.
    split; split.
    + intros [args Hin]. apply elem_of_cons in Hin as [? | Hin]; [done |].
      by apply list_elem_of_singleton in Hin.
    + intros Heq. congruence.
    + intros [args Hin]. apply elem_of_cons in Hin as [? | Hin]; [done |].
      by apply list_elem_of_singleton in Hin.
    + intros [(errno & Heq & Hne) | (text' & Heq & Hp')]; congruence.
Qed.

(** X6: when the missing-topic callback starts a call on the session and
    that call resolves, whatever other events come in between, the requested
    path is in the tracked set afterwards, and the call is the write, to the
    topic of that path with the default specification, of the value that
    [JSON.parse] gives for the text of the file read during the callback. *)
Theorem missing_topic_success_tracks_and_writes_file fs n s id c mid fs' :
  wf s →
  (id, c) ∈ calls_of (trace_of (dispatch fs (MissingTopic n) s)) →
  unsettled id mid →
  mt_path n ∈ topics
    (run ((fs, MissingTopic n) :: mid ++ [(fs', Settled id Resolved)]) s).1
  ∧ ∃ text value,
      fs (mt_path n) = inr text ∧ JSON_parse text = Some value
      ∧ c = topicUpdate_set (mt_path n) datatypes_json value defaultTopicSpec.
Proof.
  intros Hwf Hcall Hmid.
  assert (Hwf1 := dispatch_wf fs (MissingTopic n) s Hwf).
  rewrite run_cons, run_app, !run_cons.
  revert Hcall Hwf1. rewrite onMissingTopic_eq.
  destruct (setTopic_cases fs (mt_path n))
    as [[errno Hfs] | [(text & Hfs & Hp) | (text & content & Hfs & Hp)]].
  - rewrite (setTopic_no_file _ _ _ _ Hfs). unfold trace_of. simpl.
    destruct (errno =? -2)%Z; simpl; by intros ?%elem_of_nil.
  - rewrite (setTopic_bad_json _ _ _ _ Hfs Hp). unfold trace_of. simpl.
    by intros ?%elem_of_nil.
  - rewrite (setTopic_writes _ _ _ _ _ Hfs Hp). unfold state_of, trace_of.
    simpl.
    intros Hcall%list_elem_of_singleton Hwf1. injection Hcall as -> ->.
    split; [| by exists text, content].
    match goal with
    | |- context [run mid ?s1] =>
        assert (Hk : awaiting (run mid s1).1 !! next_call s
                     = Some (setTopic_resume (mt_path n)))
          by (apply run_keeps_parked;
              [done | simpl; apply lookup_insert_eq | done])
    end.
    rewrite (on_settled_setTopic _ _ _ _ _ Hk). simpl.
    apply elem_of_union_l. by apply elem_of_singleton.
Qed.

(** X7: the mirror's own removal and the server's notification of it
    reconcile in either order: after ['unlink'] for a tracked path, the
    resolution of the removal and a REMOVED or DESELECTED notification for
    the path leave the same state whichever comes first, with the path out
    of the tracked set and nothing else changed in it. *)
Theorem removal_and_notification_commute fs1 fs2 fs3 path type s :
  path ∈ topics s →
  type = REMOVED ∨ type = DESELECTED →
  (run [(fs1, FsUnlink path);
        (fs2, Settled (next_call s) Resolved);
        (fs3, TopicNotified path type)] s).1
  = (run [(fs1, FsUnlink path);
          (fs3, TopicNotified path type);
          (fs2, Settled (next_call s) Resolved)] s).1
  ∧ topics (run [(fs1, FsUnlink path);
                 (fs2, Settled (next_call s) Resolved);
                 (fs3, TopicNotified path type)] s).1
    = topics s ∖ {[path]}.
Proof.
  intros Hin Htype. rewrite !run_cons.
  rewrite (on_unlink_tracked _ _ _ Hin). unfold state_of, trace_of. simpl.
  rewrite (on_settled_unsetTopic _ _ path); [| apply lookup_insert_eq].
  simpl.
  destruct Htype as [-> | ->]; rewrite !dispatch_notified; simpl;
    (rewrite (on_settled_unsetTopic _ _ path);
       [| simpl; apply lookup_insert_eq]);
    simpl; (split; [done | apply delete_twice]).
Qed.

(** X8: the write that a missing-topic request started and the server's
    notification of the new topic reconcile in either order: the resolution
    of the write and an ADDED or SELECTED notification for the path leave
    the same state whichever comes first, with the path in the tracked
    set. *)
Theorem write_and_notification_commute fs1 fs2 fs3 n type s text value :
  fs1 (mt_path n) = inr text →
  JSON_parse text = Some value →
  type = ADDED ∨ type = SELECTED →
  (run [(fs1, MissingTopic n);
        (fs2, Settled (next_call s) Resolved);
        (fs3, TopicNotified (mt_path n) type)] s).1
  = (run [(fs1, MissingTopic n);
          (fs3, TopicNotified (mt_path n) type);
          (fs2, Settled (next_call s) Resolved)] s).1
  ∧ topics (run [(fs1, MissingTopic n);
                 (fs2, Settled (next_call s) Resolved);
                 (fs3, TopicNotified (mt_path n) type)] s).1
    = {[mt_path n]} ∪ topics s.
Proof.
  intros Hfs Hp Htype. rewrite !run_cons, onMissingTopic_eq.
  rewrite (setTopic_writes _ _ _ _ _ Hfs Hp). unfold state_of, trace_of.
  simpl.
  rewrite (on_settled_setTopic _ _ (mt_path n)); [| apply lookup_insert_eq].
  simpl.
  destruct Htype as [-> | ->]; rewrite !dispatch_notified; simpl;
    (rewrite (on_settled_setTopic _ _ (mt_path n));
       [| simpl; apply lookup_insert_eq]);
    simpl; (split; [done | apply add_twice]).
Qed.

(** X9: creating a topic on request and removing it when its file goes
    brings the tracked set back: for a path that is not tracked and whose
    file parses, a missing-topic request, the resolution of its write, the
    ['unlink'] of the file and the resolution of the removal leave the
    tracked set as it was, having started the write and then the removal. *)
Theorem create_then_unlink_restores_tracked_set fs1 fs2 fs3 fs4 n s text
    value :
  fs1 (mt_path n) = inr text →
  JSON_parse text = Some value →
  mt_path n ∉ topics s →
  let evs := [(fs1, MissingTopic n);
              (fs2, Settled (next_call s) Resolved);
              (fs3, FsUnlink (mt_path n));
              (fs4, Settled (S (next_call s)) Resolved)] in
  topics (run evs s).1 = topics s
  ∧ calls_of (run evs s).2
    = [(next_call s,
        topicUpdate_set (mt_path n) datatypes_json value defaultTopicSpec);
       (S (next_call s), topics_remove (mt_path n))].
Proof.
  intros Hfs Hp Hout evs. subst evs. rewrite !run_cons, onMissingTopic_eq.
  rewrite (setTopic_writes _ _ _ _ _ Hfs Hp). unfold state_of, trace_of.
  simpl.
  rewrite (on_settled_setTopic fs2 (next_call s) (mt_path n) Resolved);
    [| apply lookup_insert_eq].
  simpl.
  rewrite (on_unlink_tracked fs3 (mt_path n));
    [| simpl; apply elem_of_union_l; by apply elem_of_singleton].
  simpl.
  rewrite (on_settled_unsetTopic _ _ (mt_path n));
    [| simpl; apply lookup_insert_eq].
  simpl. split; [by apply add_then_delete_fresh | done].
Qed.

(** X10: starting from the empty mirror, every path of the tracked set was
    reported by an ADDED or SELECTED notification or asked for by a
    missing-topic request: the watcher's events never bring in a path. *)
Theorem tracked_paths_were_notified_or_requested evs path :
  path ∈ topics (run evs initial).1 →
  Exists (λ x, introduces x.2 path) evs.
Proof.
  intros Hin.
  destruct (run_known (λ q, Exists (λ x, introduces x.2 q) evs) evs initial)
    as [Ht _].
  - apply Forall_forall. intros x Hx q Hq. apply Exists_exists. by exists x.
  - split; [intros q Hq; by apply elem_of_empty in Hq |].
    intros id q. simpl. by rewrite lookup_empty.
  - by apply Ht.
Qed.

(** X11: the startup never leaves an error unreported and never registers
    half of the mirror.  When [connect], [addListener] and [select] all
    resolve it does what [main] does; when one of them is rejected the error
    goes to [console.error] as the last effect, and neither the watcher nor
    the missing-topic handler has been registered.  In both cases it returns
    normally and the mirror's state is untouched. *)
Theorem startup_registers_all_or_reports connect host addListener selected s :
  completion_of (program connect host addListener selected s) = Normal tt
  ∧ state_of (program connect host addListener selected s) = s
  ∧ match startup_failure connect addListener selected with
    | None =>
        ∃ sessionId,
          connect = inr sessionId
          ∧ program connect host addListener selected s
            = main sessionId host s
    | Some e =>
        last (trace_of (program connect host addListener selected s))
        = Some (ConsoleError e)
        ∧ Forall (λ r, r = NotificationsAddListener
                       ∨ ∃ sel, r = RegistrationSelect sel)
            (registrations_of
               (trace_of (program connect host addListener selected s)))
    end.
Proof.
  destruct connect as [e | sessionId];
    [| destruct addListener as [| e]; [destruct selected as [| e] |]];
    unfold program, main_awaiting, CDNHandler_build_awaiting,
      mapTopicPath_awaiting, CDNHandler_new;
    unfold_monad; simpl;
    (split; [reflexivity |]); (split; [reflexivity |]).
  - split; [reflexivity | constructor].
  - by exists sessionId.
  - split; [reflexivity |].
    constructor; [by left |]. constructor; [right; by eexists | constructor].
  - split; [reflexivity |]. constructor; [by left | constructor].
Qed.

(** X12: a notification about one path leaves every other path as it was in
    the tracked set, and never touches the parked bodies or starts a
    call. *)
Theorem notification_touches_its_path_only path type s q :
  q ≠ path →
  (q ∈ topics (state_of (onTopicNotification path type s)) ↔ q ∈ topics s)
  ∧ awaiting (state_of (onTopicNotification path type s)) = awaiting s
  ∧ next_call (state_of (onTopicNotification path type s)) = next_call s.
Proof.
  intros Hne. destruct type; unfold state_of; simpl;
    (split; [| done]);
    first [by apply add_other | by apply delete_other | done].
Qed.

(** X13: for one path the last notification wins: after any notification
    for the path, a notification of one of the four kinds leaves the state
    that it would have left alone.  In particular a repeated notification
    changes nothing, and REMOVED for a path that is not tracked is
    harmless. *)
Theorem last_notification_wins path type1 type2 s :
  (∀ tag, type2 ≠ UNKNOWN tag) →
  state_of
    (onTopicNotification path type2
       (state_of (onTopicNotification path type1 s)))
  = state_of (onTopicNotification path type2 s).
Proof.
  intros Hkind.
  destruct type2; [| | | | by destruct (Hkind tag)];
    destruct type1; unfold state_of; simpl; f_equal;
    first [done | apply add_twice | apply delete_twice
          | apply add_after_delete | apply delete_after_add].
Qed.

End Mirror.

Arguments topicUpdate_set {JSON} path dataType value options.
Arguments topics_remove {JSON} path.
Arguments Log {JSON} logger level args.
Arguments ConsoleLog {JSON} msg.
Arguments ConsoleError {JSON} e.
Arguments FsRead {JSON} path.
Arguments ServerCall {JSON} id c.
Arguments Proceed {JSON} n.
Arguments Register {JSON} r.
Arguments dispatch {JSON} JSON_parse fs ev _.
Arguments setTopic {JSON} JSON_parse fs path _.
Arguments onTopicNotification {JSON} path type _.
Arguments onDescendantNotification {JSON} path type _.
Arguments listener_onClose {JSON} _.
Arguments listener_onError {JSON} error _.
Arguments main {JSON} sessionId host _.
Arguments run {JSON} JSON_parse evs s.
Arguments resolve_calls {JSON} JSON_parse fs cs s.
Arguments state_of {JSON A} x.
Arguments trace_of {JSON A} x.
Arguments completion_of {JSON A} x.
Arguments calls_of {JSON} tr.
Arguments registrations_of {JSON} tr.
Arguments effect_path {JSON} e.

(** ** The scenario, run *)

Lemma wf_nothing_parked (s : Mirror) : awaiting s = ∅ → wf s.
Proof.
  intros He id. rewrite He, lookup_empty. by intros [? ?].
Qed.

Lemma scenario_b_untracked : path_b ∉ topics tracking_a.
Proof. apply (bool_decide_unpack _). by vm_compute. Qed.

Lemma scenario_a_tracked : path_a ∈ topics tracking_a.
Proof. apply (bool_decide_unpack _). by vm_compute. Qed.

(** The write that the ['change'] callback starts for the tracked
    [cdn/a.json] resolves after the server has notified the removal of the
    topic: the path is tracked again. *)
Lemma change_success_tracks_and_writes_file_witness :
  wf tracking_a
  ∧ (0, topicUpdate_set path_a datatypes_json text_a defaultTopicSpec)
    ∈ calls_of
        (trace_of (dispatch scenario_parse scenario_fs (FsChange path_a)
                     tracking_a))
  ∧ unsettled 0 [(scenario_fs, TopicNotified path_a REMOVED)]
  ∧ path_a ∈ topics
      (run scenario_parse
         ((scenario_fs, FsChange path_a)
          :: [(scenario_fs, TopicNotified path_a REMOVED)]
          ++ [(scenario_fs, Settled 0 Resolved)]) tracking_a).1.
Proof.
  assert (Hwf : wf tracking_a) by (by apply wf_nothing_parked).
  assert (Hcall : (0, topicUpdate_set path_a datatypes_json text_a defaultTopicSpec)
    ∈ calls_of
        (trace_of (dispatch scenario_parse scenario_fs (FsChange path_a)
                     tracking_a)))
    by (vm_compute; constructor).
  assert (Hmid : unsettled 0 [(scenario_fs, TopicNotified path_a REMOVED)])
    by (repeat constructor; intros r; discriminate).
  split; [exact Hwf |]. split; [exact Hcall |]. split; [exact Hmid |].
  exact (proj1 (change_success_tracks_and_writes_file string scenario_parse
                  scenario_fs path_a tracking_a 0 _ _ scenario_fs
                  Hwf Hcall Hmid)).
Defined.

(** C2 as stated fails in the scenario: [cdn/b.json] holds the object and is
    not tracked, and the ['change'] callback for it has no effect at all: no
    call is started, nothing is parked that could add the path later, and
    the path stays out of the tracked set. *)
Lemma change_event_on_new_file_counterexample :
  scenario_fs path_b = inr text_b
  ∧ scenario_parse text_b = Some text_b
  ∧ (path_b ∉ topics tracking_a)
  ∧ dispatch scenario_parse scenario_fs (FsChange path_b) tracking_a
    = (Normal tt, tracking_a, [])
  ∧ path_b ∉ topics
      (state_of (dispatch scenario_parse scenario_fs (FsChange path_b)
                   tracking_a)).
Proof.
  split; [reflexivity |]. split; [reflexivity |].
  split; [apply scenario_b_untracked |].
  rewrite (on_change_untracked _ _ _ _ _ scenario_b_untracked).
  split; [reflexivity | apply scenario_b_untracked].
Qed.

Lemma untracked_file_created_on_request_only_witness :
  scenario_fs path_b = inr text_b
  ∧ scenario_parse text_b = Some text_b
  ∧ (path_b ∉ topics tracking_a)
  ∧ mt_path (request_for path_b) = path_b
  ∧ calls_of
      (trace_of (dispatch scenario_parse scenario_fs
                   (MissingTopic (request_for path_b)) tracking_a))
    = [(0, topicUpdate_set path_b datatypes_json text_b defaultTopicSpec)]
  ∧ topics
      (run scenario_parse
         [(scenario_fs, MissingTopic (request_for path_b));
          (scenario_fs, Settled 0 Resolved)] tracking_a).1
    = {[path_b]} ∪ {[path_a]}.
Proof.
  pose proof (untracked_file_created_on_request_only string scenario_parse
                scenario_fs scenario_fs tracking_a text_b
                (request_for path_b) eq_refl eq_refl scenario_b_untracked
                eq_refl) as (_ & Hcalls & _ & _ & Htopics).
  split; [reflexivity |]. split; [reflexivity |].
  split; [apply scenario_b_untracked |]. split; [reflexivity |].
  split; [exact Hcalls | exact Htopics].
Defined.

(** C3 as stated fails in the scenario: after the ['unlink'] callback for
    the tracked [cdn/a.json] has returned, with the removal call 0 started
    and not settled, [cdn/a.json] is still in the tracked set. *)
Lemma unlink_keeps_path_while_pending_counterexample :
  path_a ∈ topics tracking_a
  ∧ calls_of
      (trace_of (dispatch scenario_parse scenario_fs (FsUnlink path_a)
                   tracking_a))
    = [(0, topics_remove path_a)]
  ∧ awaiting
      (state_of (dispatch scenario_parse scenario_fs (FsUnlink path_a)
                   tracking_a)) !! 0
    = Some (unsetTopic_resume path_a)
  ∧ path_a ∈ topics
      (state_of (dispatch scenario_parse scenario_fs (FsUnlink path_a)
                   tracking_a)).
Proof.
  split; [apply scenario_a_tracked |].
  rewrite (on_unlink_tracked _ _ _ _ _ scenario_a_tracked).
  split; [reflexivity |]. split; [reflexivity | apply scenario_a_tracked].
Qed.

Lemma unlink_untracks_when_removal_resolves_witness :
  wf tracking_a
  ∧ path_a ∈ topics tracking_a
  ∧ unsettled (next_call tracking_a)
      [(scenario_fs, TopicNotified path_a SELECTED)]
  ∧ path_a ∉ topics
      (run scenario_parse
         ([(scenario_fs, TopicNotified path_a SELECTED)]
          ++ [(scenario_fs, Settled (next_call tracking_a) Resolved)])
         (state_of (dispatch scenario_parse scenario_fs (FsUnlink path_a)
                      tracking_a))).1.
Proof.
  assert (Hwf : wf tracking_a) by (by apply wf_nothing_parked).
  assert (Hmid : unsettled (next_call tracking_a)
                   [(scenario_fs, TopicNotified path_a SELECTED)])
    by (repeat constructor; intros r; discriminate).
  split; [exact Hwf |]. split; [apply scenario_a_tracked |].
  split; [exact Hmid |].
  exact (proj2 (proj2 (proj2
    (unlink_untracks_when_removal_resolves string scenario_parse scenario_fs
       path_a tracking_a _ scenario_fs Hwf scenario_a_tracked Hmid)))).
Defined.

(** C7 as stated fails in the scenario: the first ['unlink'] callback for
    the tracked [cdn/a.json] has returned normally, having started removal
    0, which has not settled; the path is still tracked, and the second
    ['unlink'] callback for it starts removal 1 of the same topic. *)
Lemma second_unlink_before_removal_settles_counterexample :
  path_a ∈ topics tracking_a
  ∧ completion_of
      (dispatch scenario_parse scenario_fs (FsUnlink path_a) tracking_a)
    = Normal tt
  ∧ calls_of
      (trace_of (dispatch scenario_parse scenario_fs (FsUnlink path_a)
                   tracking_a))
    = [(0, topics_remove path_a)]
  ∧ awaiting
      (state_of (dispatch scenario_parse scenario_fs (FsUnlink path_a)
                   tracking_a)) !! 0
    = Some (unsetTopic_resume path_a)
  ∧ completion_of
      (dispatch scenario_parse scenario_fs (FsUnlink path_a)
         (state_of (dispatch scenario_parse scenario_fs (FsUnlink path_a)
                      tracking_a)))
    = Normal tt
  ∧ calls_of
      (trace_of
         (dispatch scenario_parse scenario_fs (FsUnlink path_a)
            (state_of (dispatch scenario_parse scenario_fs (FsUnlink path_a)
                         tracking_a))))
    = [(1, topics_remove path_a)].
Proof.
  split; [apply scenario_a_tracked |].
  rewrite (on_unlink_tracked _ _ scenario_fs path_a tracking_a
             scenario_a_tracked).
  split; [reflexivity |]. split; [reflexivity |]. split; [reflexivity |].
  split; by vm_compute.
Qed.

(** C4 as stated fails in the scenario: for [cdn/a.json], which is tracked,
    the missing-topic callback starts the write all the same; and the
    ['unlink'] callback run twice before the first removal settles starts
    two removals of the same topic. *)
Lemma missing_topic_callback_tests_nothing_counterexample :
  path_a ∈ topics tracking_a
  ∧ calls_of
      (trace_of (dispatch scenario_parse scenario_fs
                   (MissingTopic (request_for path_a)) tracking_a))
    = [(0, topicUpdate_set path_a datatypes_json text_a defaultTopicSpec)]
  ∧ calls_of
      (run scenario_parse
         [(scenario_fs, FsUnlink path_a); (scenario_fs, FsUnlink path_a)]
         tracking_a).2
    = [(0, topics_remove path_a); (1, topics_remove path_a)].
Proof.
  split; [apply scenario_a_tracked |]. split; by vm_compute.
Qed.

Lemma membership_tested_by_watcher_callbacks_witness :
  (path_b ∉ topics tracking_a)
  ∧ next_call initial = next_call tracking_a
  ∧ dispatch scenario_parse scenario_fs (FsChange path_b) tracking_a
    = (Normal tt, tracking_a, [])
  ∧ trace_of (dispatch scenario_parse scenario_fs
                (MissingTopic (request_for path_a)) initial)
    = trace_of (dispatch scenario_parse scenario_fs
                  (MissingTopic (request_for path_a)) tracking_a).
Proof.
  pose proof (membership_tested_by_watcher_callbacks string scenario_parse
                scenario_fs path_b (request_for path_a) tracking_a initial
                scenario_b_untracked eq_refl) as (Hchange & _ & Htrace & _).
  split; [apply scenario_b_untracked |]. split; [reflexivity |].
  split; [exact Hchange | exact Htrace].
Defined.

Lemma missing_topic_without_file_proceeds_witness :
  scenario_fs (mt_path (request_for path_c)) = inl (-2)%Z
  ∧ dispatch scenario_parse scenario_fs (MissingTopic (request_for path_c))
      tracking_a
    = (Normal tt, tracking_a,
       [Log root_logger INFO
          [Text "Missing topic notification: path=cdn/c.json, selector=cdn/c.json, session=session-1"];
        FsRead path_c;
        Log cdn_logger WARN
          [Text "Cannot satisfy missing topic cdn/c.json, no existing file"];
        Proceed (request_for path_c)]).
Proof.
  split; [reflexivity |].
  exact (proj1 (missing_topic_without_file_proceeds string scenario_parse
                  scenario_fs (request_for path_c) tracking_a eq_refl)).
Defined.

Lemma setTopic_malformed_content_witness :
  scenario_fs path_bad = inr text_bad
  ∧ scenario_parse text_bad = None
  ∧ setTopic scenario_parse scenario_fs path_bad tracking_a
    = (Normal tt, tracking_a,
       [FsRead path_bad; Log cdn_logger ERROR [Thrown SyntaxError]]).
Proof.
  split; [reflexivity |]. split; [reflexivity |].
  exact (proj1 (setTopic_malformed_content string scenario_parse scenario_fs
                  path_bad tracking_a text_bad eq_refl eq_refl)).
Defined.

(** The events of a short session of the mirror, all under [cdn]. *)
Lemma effects_stay_under_root_witness :
  Forall (in_scope root)
    [(scenario_fs, TopicNotified path_a SELECTED);
     (scenario_fs, MissingTopic (request_for path_b));
     (scenario_fs, Settled 0 Resolved);
     (scenario_fs, FsUnlink path_a)]
  ∧ under root "cdnx/a.json" = false
  ∧ Forall (λ e, effect_path e ≠ Some "cdnx/a.json")
      (run scenario_parse
         [(scenario_fs, TopicNotified path_a SELECTED);
          (scenario_fs, MissingTopic (request_for path_b));
          (scenario_fs, Settled 0 Resolved);
          (scenario_fs, FsUnlink path_a)] initial).2.
Proof.
  assert (Hevs : Forall (in_scope root)
    [(scenario_fs, TopicNotified path_a SELECTED);
     (scenario_fs, MissingTopic (request_for path_b));
     (scenario_fs, Settled 0 Resolved);
     (scenario_fs, FsUnlink path_a)]).
  { repeat constructor; intros q Hq; simpl in Hq;
      first [discriminate | injection Hq as <-; reflexivity]. }
  split; [exact Hevs |]. split; [reflexivity |].
  exact (proj1 (proj2 (proj2
    (effects_stay_under_root string scenario_parse "session-0" "localhost"
       _ "cdnx/a.json" Hevs eq_refl)))).
Defined.

Lemma setTopic_failure_keeps_tracked_set_witness :
  scenario_fs path_c = inl (-2)%Z
  ∧ state_of (setTopic scenario_parse scenario_fs path_c tracking_a)
    = tracking_a
  ∧ scenario_fs path_bad = inr text_bad
  ∧ scenario_parse text_bad = None
  ∧ state_of (setTopic scenario_parse scenario_fs path_bad tracking_a)
    = tracking_a
  ∧ awaiting
      (state_of (setTopic scenario_parse scenario_fs path_b tracking_a)) !! 0
    = Some (setTopic_resume path_b)
  ∧ topics
      (state_of
         (dispatch scenario_parse scenario_fs
            (Settled 0 (Rejected (SdkError None)))
            (state_of (setTopic scenario_parse scenario_fs path_b tracking_a))))
    = topics tracking_a.
Proof.
  destruct (setTopic_failure_keeps_tracked_set string scenario_parse
              scenario_fs path_c tracking_a) as (Hc & _).
  destruct (setTopic_failure_keeps_tracked_set string scenario_parse
              scenario_fs path_bad tracking_a) as (_ & Hbad & _).
  destruct (setTopic_failure_keeps_tracked_set string scenario_parse
              scenario_fs path_b
              (state_of (setTopic scenario_parse scenario_fs path_b
                           tracking_a))) as (_ & _ & _ & Hrej & _).
  split; [reflexivity |]. split; [exact (Hc _ eq_refl) |].
  split; [reflexivity |]. split; [reflexivity |].
  split; [exact (Hbad _ eq_refl eq_refl) |].
  split; [reflexivity |].
  exact (proj2 (Hrej 0 (SdkError None) eq_refl)).
Defined.

(** ** The session property listener *)

Lemma subscriptions_of_app tr1 tr2 :
  subscriptions_of (tr1 ++ tr2) = subscriptions_of tr1 ++ subscriptions_of tr2.
Proof.
  induction tr1 as [| e tr1 IH]; [done |].
  destruct e; simpl; by rewrite ?IH.
Qed.

Lemma truthy_Some (v : option string) :
  truthy v = true ↔ ∃ text, v = Some text ∧ text ≠ "".
Proof.
  destruct v as [[| c text] |]; simpl; split; try done.
  - by intros (text & [= <-] & Hne).
  - intros _. by eexists.
  - by intros (text & ? & _).
Qed.

(** What [onSessionOpen] does, by whether the session has the role. *)
Lemma onSessionOpen_cases stringToRoles this sessionID properties :
  let opened :=
    logger_call session_logger INFO ("Session openned " +:+ sessionID)
      (Some (WithProperties properties)) in
  (has_role stringToRoles this properties
   ∧ onSessionOpen stringToRoles this sessionID properties
     = (Normal tt, [opened; clients_subscribe sessionID (selector this)]))
  ∨ (¬ has_role stringToRoles this properties
     ∧ ∃ c, onSessionOpen stringToRoles this sessionID properties
            = (c, [opened])).
Proof.
  intros opened. subst opened. unfold onSessionOpen, has_role.
  destruct (truthy (properties !! "$Roles")) eqn:Hr; simpl;
    [| right; split; [| by eexists];
       intros (r & p & roles & Hr' & Hne & _);
       assert (truthy (properties !! "$Roles") = true)
         by (apply truthy_Some; by exists r); congruence].
  destruct (truthy (properties !! "$Principal")) eqn:Hp; simpl;
    [| right; split; [| by eexists];
       intros (r & p & roles & _ & _ & Hp' & Hne & _);
       assert (truthy (properties !! "$Principal") = true)
         by (apply truthy_Some; by exists p); congruence].
  apply truthy_Some in Hr as (r & Hr & Hrne).
  apply truthy_Some in Hp as (p & Hp & Hpne).
  rewrite Hr. simpl.
  destruct (stringToRoles r) as [e | roles] eqn:Hroles.
  - right. split; [| by eexists].
    intros (r' & p' & roles & Hr' & _ & _ & _ & Hroles' & _). congruence.
  - case_bool_decide as Hin.
    + left. split; [| done]. by exists r, p, roles.
    + right. split; [| by eexists].
      intros (r' & p' & roles' & Hr' & _ & _ & _ & Hroles' & Hin').
      congruence.
Qed.

(** X14: [onSessionOpen] subscribes the session that opened, to the
    listener's selector, when the session has a non-empty principal and a
    non-empty [$Roles] that [stringToRoles] turns into roles among which is
    the listener's; in every other case it starts no subscription. *)
Theorem onSessionOpen_subscribes_sessions_with_role stringToRoles this
    sessionID properties :
  (has_role stringToRoles this properties →
   (onSessionOpen stringToRoles this sessionID properties).1 = Normal tt
   ∧ subscriptions_of (onSessionOpen stringToRoles this sessionID properties).2
     = [(sessionID, selector this)])
  ∧ (¬ has_role stringToRoles this properties →
     subscriptions_of (onSessionOpen stringToRoles this sessionID properties).2
     = []).
Proof.
  destruct (onSessionOpen_cases stringToRoles this sessionID properties)
    as [[Hrole ->] | [Hnot [c ->]]]; split; try done.
Qed.

(** X15: a session without a principal or without roles (the property is
    missing or is the empty string) is left alone: [onSessionOpen] logs and
    returns without consulting [stringToRoles], so it cannot throw there. *)
Theorem onSessionOpen_ignores_sessions_without_identity stringToRoles this
    sessionID properties :
  truthy (properties !! "$Roles") = false
  ∨ truthy (properties !! "$Principal") = false →
  onSessionOpen stringToRoles this sessionID properties
  = (Normal tt,
     [logger_call session_logger INFO ("Session openned " +:+ sessionID)
        (Some (WithProperties properties))]).
Proof.
  intros [H | H]; unfold onSessionOpen; rewrite H; [done |].
  by rewrite andb_false_r.
Qed.

(** X16: over any sequence of callbacks of the listener, every subscription
    that is started is for a session that opened with the role, and to the
    listener's selector: property changes, closes and resolutions never
    subscribe anyone. *)
Theorem subscriptions_come_from_sessions_opened_with_role stringToRoles this
    evs sessionID sel :
  (sessionID, sel) ∈ subscriptions_of (listener_run stringToRoles this evs) →
  sel = selector this
  ∧ ∃ properties,
      SessionOpen sessionID properties ∈ evs
      ∧ has_role stringToRoles this properties.
Proof.
  induction evs as [| ev evs IH]; simpl; [by intros ?%elem_of_nil |].
  rewrite subscriptions_of_app. intros [Hin | Hin]%elem_of_app.
  - destruct ev as [| sid properties | sid type properties previous
                   | sid properties reason | | error | principal sid];
      simpl in Hin; try (by apply elem_of_nil in Hin).
    destruct (onSessionOpen_cases stringToRoles this sid properties)
      as [[Hrole Heq] | [Hnot [c Heq]]]; rewrite Heq in Hin; simpl in Hin;
      [| by apply elem_of_nil in Hin].
    apply list_elem_of_singleton in Hin. injection Hin as -> ->.
    split; [done |]. exists properties. split; [apply list_elem_of_here | done].
  - destruct (IH Hin) as [Hsel (properties & Hev & Hrole)].
    split; [done |]. exists properties. split; [| done].
    by apply list_elem_of_further.
Qed.

(** X17: [onSessionOpen] decides on the two properties that [main] asks the
    server to report, and on nothing else: two property maps that agree on
    the requested properties end the same way and start the same
    subscriptions; and [main] registers the listener for those
    properties. *)
Theorem onSessionOpen_reads_requested_properties_only stringToRoles this
    sessionID properties1 properties2 sessionId host :
  (∀ key, key ∈ requested_properties →
          properties1 !! key = properties2 !! key) →
  (onSessionOpen stringToRoles this sessionID properties1).1
  = (onSessionOpen stringToRoles this sessionID properties2).1
  ∧ subscriptions_of
      (onSessionOpen stringToRoles this sessionID properties1).2
    = subscriptions_of
        (onSessionOpen stringToRoles this sessionID properties2).2
  ∧ ∃ l, setSessionPropertiesListener requested_properties l
         ∈ (listener_main (inr sessionId) host Resolved).2.
Proof.
  intros Hagree.
  assert (Hr : properties1 !! "$Roles" = properties2 !! "$Roles")
    by (apply Hagree; apply list_elem_of_further, list_elem_of_here).
  assert (Hp : properties1 !! "$Principal" = properties2 !! "$Principal")
    by (apply Hagree; apply list_elem_of_here).
  split; [| split].
  - unfold onSessionOpen. rewrite Hr, Hp.
    destruct (negb _); [done |].
    destruct (stringToRoles _); [done |]. by case_bool_decide.
  - unfold onSessionOpen. rewrite Hr, Hp.
    destruct (negb _); [done |].
    destruct (stringToRoles _); [done |]. by case_bool_decide.
  - eexists. simpl. apply list_elem_of_further, list_elem_of_here.
Qed.

(** ** The subscriber *)

(** X18: the subscriber connects exactly when it is given an argument;
    it selects exactly when the connection resolved, and then the path is
    its first argument, whatever follows it, and the stream on that path
    was added before; an await that is rejected is reported by
    [console.error], and without arguments only the usage line is
    printed. *)
Theorem subscriber_selects_first_argument_once_connected chalk args connect
    host selected :
  let tr := subscriber_program chalk args connect host selected in
  (args = [] →
   tr = [usage_error "wrong # args, try <topic-subscription-path>"])
  ∧ (diffusion_connect ∈ tr ↔ args ≠ [])
  ∧ (∀ path,
       session_select path ∈ tr
       ↔ head args = Some path ∧ ∃ sessionId, connect = inr sessionId)
  ∧ (∀ path,
       session_select path ∈ tr →
       ∃ before after,
         tr = before ++ session_select path :: after
         ∧ addStream path datatypes_json ∈ before)
  ∧ (∀ e,
       error_thrown e ∈ tr
       ↔ args ≠ []
         ∧ (connect = inl e
            ∨ (∃ sessionId, connect = inr sessionId)
              ∧ selected = Rejected e)).
Proof.
  intros tr. subst tr. unfold subscriber_program, subscriber_main.
  destruct args as [| arg rest].
  { split; [done |]. split; [| split; [| split]].
    - rewrite list_elem_of_singleton. by split.
    - intros path. rewrite list_elem_of_singleton. split; [done |].
      by intros [? _].
    - intros path. by rewrite list_elem_of_singleton.
    - intros e. rewrite list_elem_of_singleton. split; [done |].
      by intros [? _]. }
  split; [done |].
  destruct connect as [e0 | sessionId].
  { simpl. split; [| split; [| split]].
    - split; [done |]. intros _. apply list_elem_of_here.
    - intros path. rewrite !elem_of_cons, elem_of_nil. split.
      + by intros [? | [? | ?]].
      + by intros [_ [sessionId ?]].
    - intros path. rewrite !elem_of_cons, elem_of_nil.
      by intros [? | [? | ?]].
    - intros e. rewrite !elem_of_cons, elem_of_nil. split.
      + intros [? | [[= ->] | ?]]; try done. split; [done | by left].
      + intros [_ [[= ->] | [[sessionId ?] _]]]; [| done].
        right. by left. }
  destruct selected as [| e0]; simpl.
  - split; [| split; [| split]].
    + split; [done |]. intros _. apply list_elem_of_here.
    + intros path. rewrite !elem_of_cons, elem_of_nil. split.
      * intros [? | [? | [? | [[= ->] | [? | ?]]]]]; try done.
        split; [done | by eexists].
      * intros [[= ->] _]. do 3 right. by left.
    + intros path. rewrite !elem_of_cons, elem_of_nil.
      intros [? | [? | [? | [[= ->] | [? | ?]]]]]; try done.
      exists [diffusion_connect;
              console_log [chalk yellowBright "Connected session";
                           sessionId +:+ " to " +:+ host];
              addStream arg datatypes_json].
      eexists. split; [reflexivity |].
      do 2 apply list_elem_of_further. apply list_elem_of_here.
    + intros e. rewrite !elem_of_cons, elem_of_nil. split.
      * by intros [? | [? | [? | [? | [? | ?]]]]].
      * by intros [_ [? | [_ ?]]].
  - split; [| split; [| split]].
    + split; [done |]. intros _. apply list_elem_of_here.
    + intros path. rewrite !elem_of_cons, elem_of_nil. split.
      * intros [? | [? | [? | [[= ->] | [? | ?]]]]]; try done.
        split; [done | by eexists].
      * intros [[= ->] _]. do 3 right. by left.
    + intros path. rewrite !elem_of_cons, elem_of_nil.
      intros [? | [? | [? | [[= ->] | [? | ?]]]]]; try done.
      exists [diffusion_connect;
              console_log [chalk yellowBright "Connected session";
                           sessionId +:+ " to " +:+ host];
              addStream arg datatypes_json].
      eexists. split; [reflexivity |].
      do 2 apply list_elem_of_further. apply list_elem_of_here.
    + intros e. rewrite !elem_of_cons, elem_of_nil. split.
      * intros [? | [? | [? | [? | [[= ->] | ?]]]]]; try done.
        split; [done |]. right. split; [by eexists | done].
      * intros [_ [? | [_ [= ->]]]]; [done |]. do 4 right. by left.
Qed.

(** ** The further properties, run on the scenario *)

Lemma tracked_set_changes_only_on_notification_or_settlement_witness :
  notification_or_settlement (MissingTopic (request_for path_b)) = false
  ∧ topics
      (state_of (dispatch scenario_parse scenario_fs
                   (MissingTopic (request_for path_b)) tracking_a))
    = topics tracking_a.
Proof.
  split; [reflexivity |].
  exact (tracked_set_changes_only_on_notification_or_settlement string
           scenario_parse scenario_fs (MissingTopic (request_for path_b))
           tracking_a eq_refl).
Defined.

Lemma rejected_removal_leaves_path_tracked_witness :
  path_a ∈ topics tracking_a
  ∧ completion_of
      (dispatch scenario_parse scenario_fs
         (Settled (next_call tracking_a) (Rejected (SdkError None)))
         (state_of (dispatch scenario_parse scenario_fs (FsUnlink path_a)
                      tracking_a)))
    = Throw (SdkError None)
  ∧ path_a ∈ topics
      (state_of
         (dispatch scenario_parse scenario_fs
            (Settled (next_call tracking_a) (Rejected (SdkError None)))
            (state_of (dispatch scenario_parse scenario_fs (FsUnlink path_a)
                         tracking_a)))).
Proof.
  pose proof (rejected_removal_leaves_path_tracked string scenario_parse
                scenario_fs scenario_fs path_a (SdkError None) tracking_a
                scenario_a_tracked) as (_ & Hthrow & _ & _ & Hin & _).
  split; [apply scenario_a_tracked |].
  split; [exact Hthrow | exact Hin].
Defined.

(** The write for [cdn/b.json] resolves after the server has notified that
    the topic was removed again. *)
Lemma missing_topic_success_tracks_and_writes_file_witness :
  wf tracking_a
  ∧ (0, topicUpdate_set path_b datatypes_json text_b defaultTopicSpec)
    ∈ calls_of
        (trace_of (dispatch scenario_parse scenario_fs
                     (MissingTopic (request_for path_b)) tracking_a))
  ∧ unsettled 0 [(scenario_fs, TopicNotified path_b REMOVED)]
  ∧ path_b ∈ topics
      (run scenario_parse
         ((scenario_fs, MissingTopic (request_for path_b))
          :: [(scenario_fs, TopicNotified path_b REMOVED)]
          ++ [(scenario_fs, Settled 0 Resolved)]) tracking_a).1.
Proof.
  assert (Hwf : wf tracking_a) by (by apply wf_nothing_parked).
  assert (Hcall :
    (0, topicUpdate_set path_b datatypes_json text_b defaultTopicSpec)
    ∈ calls_of
        (trace_of (dispatch scenario_parse scenario_fs
                     (MissingTopic (request_for path_b)) tracking_a)))
    by (vm_compute; constructor).
  assert (Hmid : unsettled 0 [(scenario_fs, TopicNotified path_b REMOVED)])
    by (repeat constructor; intros r; discriminate).
  split; [exact Hwf |]. split; [exact Hcall |]. split; [exact Hmid |].
  exact (proj1 (missing_topic_success_tracks_and_writes_file string
                  scenario_parse scenario_fs (request_for path_b) tracking_a
                  0 _ _ scenario_fs Hwf Hcall Hmid)).
Defined.

Lemma removal_and_notification_commute_witness :
  path_a ∈ topics tracking_a
  ∧ (REMOVED = REMOVED ∨ REMOVED = DESELECTED)
  ∧ topics
      (run scenario_parse
         [(scenario_fs, FsUnlink path_a);
          (scenario_fs, Settled (next_call tracking_a) Resolved);
          (scenario_fs, TopicNotified path_a REMOVED)] tracking_a).1
    = topics tracking_a ∖ {[path_a]}.
Proof.
  split; [apply scenario_a_tracked |]. split; [by left |].
  exact (proj2 (removal_and_notification_commute string scenario_parse
                  scenario_fs scenario_fs scenario_fs path_a REMOVED
                  tracking_a scenario_a_tracked (or_introl eq_refl))).
Defined.

Lemma write_and_notification_commute_witness :
  scenario_fs (mt_path (request_for path_b)) = inr text_b
  ∧ scenario_parse text_b = Some text_b
  ∧ (ADDED = ADDED ∨ ADDED = SELECTED)
  ∧ topics
      (run scenario_parse
         [(scenario_fs, MissingTopic (request_for path_b));
          (scenario_fs, Settled (next_call tracking_a) Resolved);
          (scenario_fs, TopicNotified (mt_path (request_for path_b)) ADDED)]
         tracking_a).1
    = {[mt_path (request_for path_b)]} ∪ topics tracking_a.
Proof.
  split; [reflexivity |]. split; [reflexivity |]. split; [by left |].
  exact (proj2 (write_and_notification_commute string scenario_parse
                  scenario_fs scenario_fs scenario_fs (request_for path_b)
                  ADDED tracking_a text_b text_b eq_refl eq_refl
                  (or_introl eq_refl))).
Defined.

Lemma create_then_unlink_restores_tracked_set_witness :
  scenario_fs (mt_path (request_for path_b)) = inr text_b
  ∧ scenario_parse text_b = Some text_b
  ∧ (mt_path (request_for path_b) ∉ topics tracking_a)
  ∧ topics
      (run scenario_parse
         [(scenario_fs, MissingTopic (request_for path_b));
          (scenario_fs, Settled (next_call tracking_a) Resolved);
          (scenario_fs, FsUnlink (mt_path (request_for path_b)));
          (scenario_fs, Settled (S (next_call tracking_a)) Resolved)]
         tracking_a).1
    = topics tracking_a.
Proof.
  split; [reflexivity |]. split; [reflexivity |].
  split; [apply scenario_b_untracked |].
  exact (proj1 (create_then_unlink_restores_tracked_set string scenario_parse
                  scenario_fs scenario_fs scenario_fs scenario_fs
                  (request_for path_b) tracking_a text_b text_b eq_refl
                  eq_refl scenario_b_untracked)).
Defined.

Lemma tracked_paths_were_notified_or_requested_witness :
  path_b ∈ topics
    (run scenario_parse
       [(scenario_fs, FsChange path_b);
        (scenario_fs, MissingTopic (request_for path_b));
        (scenario_fs, Settled 0 Resolved)] initial).1
  ∧ Exists (λ x, introduces x.2 path_b)
      [(scenario_fs, FsChange path_b);
       (scenario_fs, MissingTopic (request_for path_b));
       (scenario_fs, Settled 0 Resolved)].
Proof.
  assert (Hin : path_b ∈ topics
    (run scenario_parse
       [(scenario_fs, FsChange path_b);
        (scenario_fs, MissingTopic (request_for path_b));
        (scenario_fs, Settled 0 Resolved)] initial).1)
    by (apply (bool_decide_unpack _); by vm_compute).
  split; [exact Hin |].
  exact (tracked_paths_were_notified_or_requested string scenario_parse _ _
           Hin).
Defined.

Lemma notification_touches_its_path_only_witness :
  path_b ≠ path_a
  ∧ (path_b ∈ topics (state_of (onTopicNotification (JSON := string) path_a
                                  REMOVED tracking_a))
     ↔ path_b ∈ topics tracking_a).
Proof.
  assert (Hne : path_b ≠ path_a) by discriminate.
  split; [exact Hne |].
  exact (proj1 (notification_touches_its_path_only string scenario_parse
                  path_a REMOVED tracking_a path_b Hne)).
Defined.

Lemma last_notification_wins_witness :
  (∀ tag, REMOVED ≠ UNKNOWN tag)
  ∧ state_of
      (onTopicNotification (JSON := string) path_b REMOVED
         (state_of (onTopicNotification (JSON := string) path_b ADDED
                      tracking_a)))
    = state_of (onTopicNotification (JSON := string) path_b REMOVED
                  tracking_a).
Proof.
  assert (Hkind : ∀ tag, REMOVED ≠ UNKNOWN tag) by (intros tag; discriminate).
  split; [exact Hkind |].
  exact (last_notification_wins string scenario_parse path_b ADDED REMOVED
           tracking_a Hkind).
Defined.

Lemma onSessionOpen_ignores_sessions_without_identity_witness :
  (truthy (anonymous_properties !! "$Roles") = false
   ∨ truthy (anonymous_properties !! "$Principal") = false)
  ∧ subscriptions_of
      (onSessionOpen scenario_stringToRoles trader_listener "session-2"
         anonymous_properties).2 = [].
Proof.
  assert (H : truthy (anonymous_properties !! "$Roles") = false
              ∨ truthy (anonymous_properties !! "$Principal") = false)
    by (right; reflexivity).
  split; [exact H |].
  by rewrite (onSessionOpen_ignores_sessions_without_identity
                scenario_stringToRoles trader_listener "session-2"
                anonymous_properties H).
Defined.

Lemma subscriptions_come_from_sessions_opened_with_role_witness :
  ("session-1", "cdn/trader-news.json")
  ∈ subscriptions_of
      (listener_run scenario_stringToRoles trader_listener
         [SessionsActive;
          SessionOpen "session-2" anonymous_properties;
          SessionOpen "session-1" trader_properties;
          SubscriptionResolved "alice" "session-1"])
  ∧ ∃ properties,
      SessionOpen "session-1" properties
      ∈ [SessionsActive;
         SessionOpen "session-2" anonymous_properties;
         SessionOpen "session-1" trader_properties;
         SubscriptionResolved "alice" "session-1"]
      ∧ has_role scenario_stringToRoles trader_listener properties.
Proof.
  assert (Hin : ("session-1", "cdn/trader-news.json")
    ∈ subscriptions_of
        (listener_run scenario_stringToRoles trader_listener
           [SessionsActive;
            SessionOpen "session-2" anonymous_properties;
            SessionOpen "session-1" trader_properties;
            SubscriptionResolved "alice" "session-1"]))
    by (vm_compute; constructor).
  split; [exact Hin |].
  exact (proj2 (subscriptions_come_from_sessions_opened_with_role
                  scenario_stringToRoles trader_listener _ _ _ Hin)).
Defined.

Lemma onSessionOpen_reads_requested_properties_only_witness :
  (∀ key, key ∈ requested_properties →
          trader_properties !! key
          = (<["$Country" := "GB"]> trader_properties) !! key)
  ∧ subscriptions_of
      (onSessionOpen scenario_stringToRoles trader_listener "session-1"
         trader_properties).2
    = subscriptions_of
        (onSessionOpen scenario_stringToRoles trader_listener "session-1"
           (<["$Country" := "GB"]> trader_properties)).2.
Proof.
  assert (Hagree : ∀ key, key ∈ requested_properties →
            trader_properties !! key
            = (<["$Country" := "GB"]> trader_properties) !! key).
  { intros key Hkey. unfold requested_properties in Hkey.
    rewrite !elem_of_cons, elem_of_nil in Hkey.
    destruct Hkey as [-> | [-> | []]]; reflexivity. }
  split; [exact Hagree |].
  exact (proj1 (proj2 (onSessionOpen_reads_requested_properties_only
                         scenario_stringToRoles trader_listener "session-1"
                         _ _ "session-0" "localhost" Hagree))).
Defined.

Lemma onSessionOpen_subscribes_sessions_with_role_witness :
  has_role scenario_stringToRoles trader_listener trader_properties
  ∧ subscriptions_of
      (onSessionOpen scenario_stringToRoles trader_listener "session-1"
         trader_properties).2
    = [("session-1", "cdn/trader-news.json")].
Proof.
  assert (Hrole : has_role scenario_stringToRoles trader_listener
                    trader_properties).
  { exists (quoted "TRADER"), "alice", ["TRADER"].
    split; [reflexivity |]. split; [discriminate |].
    split; [reflexivity |]. split; [discriminate |].
    split; [reflexivity | apply list_elem_of_here]. }
  split; [exact Hrole |].
  exact (proj2 (proj1 (onSessionOpen_subscribes_sessions_with_role
                         scenario_stringToRoles trader_listener "session-1"
                         trader_properties) Hrole)).
Defined.
